(** * ear: an 88-note filter bank and an oscilloscope ring buffer

    A shallow embedding of [script.js] (the page side: [EarDataRequester],
    [OscRender]; the audio side: [IIRBandBoostFilter],
    [DelayedIIRBandBoostFilterPair], [EarProcessor]) and of [osc-worker.js]
    ([RotatingAudioBuffer], [OscWorker]).

    Numbers.  A JavaScript number is modelled as a real number or [NaN]:
    finite doubles are idealised as reals (no rounding, no overflow, and a
    [Float32Array] stores what it is given), while [NaN] is kept because the
    code can produce it without any rounding: reading a typed array out of
    range yields [undefined], which arithmetic turns into [NaN], and [x % 0]
    is [NaN].  Array lengths and indices are integers; an index can be [NaN]
    as well. *)

From Stdlib Require Import Reals Lra ZArith Lia List String.
From stdpp Require Import base option list gmap strings.
Import ListNotations.

Local Open Scope Z_scope.
Local Open Scope nat_scope.

(** ** JavaScript values used by the program *)

Module JS.

Inductive num : Type :=
| Num (r : R)
| NaN.

Definition add (a b : num) : num :=
  match a, b with Num x, Num y => Num (x + y) | _, _ => NaN end.
Definition sub (a b : num) : num :=
  match a, b with Num x, Num y => Num (x - y) | _, _ => NaN end.
Definition mul (a b : num) : num :=
  match a, b with Num x, Num y => Num (x * y) | _, _ => NaN end.

(** [x >= 0] on numbers: false on [NaN]. *)
Definition nonneg (a : num) : Prop :=
  match a with Num x => (0 <= x)%R | NaN => False end.

Definition finite (a : num) : Prop :=
  match a with Num _ => True | NaN => False end.

(** [Math.round]: the nearest integer, halves towards plus infinity. *)
Definition Math_round (x : R) : Z := Int_part (x + / 2).

(** [Math.pow] at a positive base. *)
Definition Math_pow (b e : R) : R := Rpower b e.

(** An integral number used as an index or a counter; [None] is [NaN]. *)
Definition index : Type := option Z.

(** [a % n] on integral numbers: the remainder has the sign of the
    dividend, and [a % 0] is [NaN]. *)
Definition rem (a : index) (n : Z) : index :=
  match a with
  | Some z => if decide (n = 0%Z) then None else Some (Z.rem z n)
  | None => None
  end.

Definition plus (a : index) (k : Z) : index :=
  match a with Some z => Some (z + k)%Z | None => None end.

(** [a[i]] on a typed array; out of range (or at [NaN]) the read gives
    [undefined], which every consumer here coerces to [NaN]. *)
Definition get (a : list num) (i : index) : num :=
  match i with
  | Some z => if decide (0 <= z)%Z then default NaN (a !! Z.to_nat z) else NaN
  | None => NaN
  end.

(** [a[i] = x] on a typed array; out of range the store is dropped. *)
Definition set (a : list num) (i : index) (x : num) : list num :=
  match i with
  | Some z => if decide (0 <= z)%Z then <[Z.to_nat z := x]> a else a
  | None => a
  end.

(** What a caller can hand to [RotatingAudioBuffer.write]: a typed array
    of samples or a single number. *)
Inductive value : Type :=
| VNum (x : num)
| VArr (a : list num).

(** [v.length]; a number has no such property ([undefined]). *)
Definition length_of (v : value) : option nat :=
  match v with VArr a => Some (length a) | VNum _ => None end.

(** [v[i]] for [i] below [v.length]. *)
Definition item (v : value) (i : nat) : num :=
  match v with VArr a => get a (Some (Z.of_nat i)) | VNum _ => NaN end.

(** The [buffer] field of a message: an [ArrayBuffer] (seen here as the
    32-bit floats it holds; it has [byteLength] but no [length]) or a
    [Float32Array]. *)
Inductive payload : Type :=
| ArrayBuffer (floats : list num)
| Float32Array (elems : list num).

(** [new Float32Array(b)]: a view of an [ArrayBuffer], a copy of a typed
    array, and the empty array for [undefined]. *)
Definition new_Float32Array (b : option payload) : list num :=
  match b with
  | Some (ArrayBuffer a) => a
  | Some (Float32Array a) => a
  | None => []
  end.

(** [b && b.length > 0]. *)
Definition has_positive_length (b : option payload) : bool :=
  match b with
  | Some (Float32Array a) => bool_decide (0 < length a)
  | Some (ArrayBuffer _) => false
  | None => false
  end.

(** The data of a message event, in either direction.  A field that is
    absent is [None] ([undefined]). *)
Record message_data : Type := {
  type : option string;
  message : option string;
  buffer : option payload;
  requestId : option nat
}.

End JS.

Declare Scope num_scope.
Delimit Scope num_scope with num.
Bind Scope num_scope with JS.num.
Infix "+" := JS.add : num_scope.
Infix "-" := JS.sub : num_scope.
Infix "*" := JS.mul : num_scope.

(** ** osc-worker.js: [RotatingAudioBuffer] *)

Module RotatingAudioBuffer.

Record t : Type := {
  length : nat;
  buffer : list JS.num;
  writeIndex : JS.index
}.

Definition new (length : nat) : t :=
  {| length := length;
     buffer := replicate length (JS.Num 0);
     writeIndex := Some 0%Z |}.

(** The body of the loop of [write]. *)
Definition write_step (rb : t) (x : JS.num) : t :=
  {| length := length rb;
     buffer := JS.set (buffer rb) (writeIndex rb) x;
     writeIndex := JS.rem (JS.plus (writeIndex rb) 1) (Z.of_nat (length rb)) |}.

(** [for (i = 0; i < data.length; i++)]: with [data.length] undefined the
    test [0 < undefined] is false and the body never runs. *)
Definition write (rb : t) (data : JS.value) : t :=
  match JS.length_of data with
  | Some n => foldl (fun rb i => write_step rb (JS.item data i)) rb (seq 0 n)
  | None => rb
  end.

(** The body of the loop of [read], on the target and [readIndex]. *)
Definition read_step (rb : t) (st : list JS.num * JS.index) (i : nat)
  : list JS.num * JS.index :=
  (JS.set st.1 (Some (Z.of_nat i)) (JS.get (buffer rb) st.2),
   JS.rem (JS.plus st.2 1) (Z.of_nat (length rb))).

(** [read] returns the object (it assigns no field of it) and the target
    buffer as it leaves it. *)
Definition read (rb : t) (targetBuffer : list JS.num) : t * list JS.num :=
  let targetLength := Datatypes.length targetBuffer in
  let readIndex :=
    JS.rem (JS.plus (JS.plus (writeIndex rb) (- Z.of_nat targetLength))
                    (Z.of_nat (length rb)))
           (Z.of_nat (length rb)) in
  (rb, (foldl (read_step rb) (targetBuffer, readIndex) (seq 0 targetLength)).1).

End RotatingAudioBuffer.

(** ** osc-worker.js: [OscWorker] *)

Module OscWorker.

Record t : Type := {
  rotatingBuffer : RotatingAudioBuffer.t
}.

(** [sampleRate] is the global of the worklet scope, a whole number of
    samples per second here, as it sizes the buffer. *)
Definition new (sampleRate : nat) : t :=
  {| rotatingBuffer := RotatingAudioBuffer.new sampleRate |}.

(** [handleMessage] returns the worker and the messages it posts. *)
Definition handleMessage (w : t) (data : JS.message_data)
  : t * list JS.message_data :=
  if bool_decide (JS.type data = Some "dump"%string) then
    let buffer := JS.buffer data in
    let writeArray := JS.new_Float32Array buffer in
    if JS.has_positive_length buffer then
      let '(rb, filled) := RotatingAudioBuffer.read (rotatingBuffer w) writeArray in
      ({| rotatingBuffer := rb |},
       [ {| JS.type := Some "dumped"%string;
            JS.message := None;
            JS.buffer := Some (JS.ArrayBuffer filled);
            JS.requestId := None |} ])
    else (w, [])
  else (w, []).

(** [process]: [inputs] is a list of inputs, an input a list of channels,
    a channel a typed array.  [None] is the [TypeError] of [input.length]
    when there is no first input. *)
Definition process (w : t) (inputs : list (list (list JS.num)))
  : option (t * bool) :=
  match inputs with
  | [] => None
  | input :: _ =>
      match input with
      | channel :: _ =>
          match channel with
          | monoInput :: _ =>
              Some ({| rotatingBuffer :=
                         RotatingAudioBuffer.write (rotatingBuffer w) (JS.VNum monoInput) |},
                    true)
          | [] => Some (w, true)
          end
      | [] => Some (w, true)
      end
  end.

End OscWorker.

(** ** script.js: [IIRBandBoostFilter] *)

Module IIRBandBoostFilter.

Local Open Scope R_scope.

Record t : Type := {
  Fs : R;
  f0 : R;
  peakGainDB : R;
  b0 : R;
  b1 : R;
  b2 : R;
  a1 : R;
  a2 : R;
  x1 : JS.num;
  x2 : JS.num;
  y1 : JS.num;
  y2 : JS.num
}.

(** [440.0 * Math.pow(2, (midiNoteNumber - 69.0) / 12.0)]. *)
Definition center_frequency (midiNoteNumber : R) : R :=
  440 * JS.Math_pow 2 ((midiNoteNumber - 69) / 12).

(** The object both pass-through branches of the constructor build. *)
Definition pass_through (Fs f0 peakGainDB : R) : t :=
  {| Fs := Fs; f0 := f0; peakGainDB := peakGainDB;
     b0 := 1; b1 := 0; b2 := 0; a1 := 0; a2 := 0;
     x1 := JS.Num 0; x2 := JS.Num 0; y1 := JS.Num 0; y2 := JS.Num 0 |}.

Definition new (midiNoteNumber samplingFrequency peakGainDB : R) : t :=
  let Fs := samplingFrequency in
  let f0 := center_frequency midiNoteNumber in
  if Rle_dec f0 0 then pass_through Fs f0 peakGainDB
  else if Rge_dec f0 (Fs / 2) then pass_through Fs f0 peakGainDB
  else
    let w0 := 2 * PI * f0 / Fs in
    let cos_w0 := cos w0 in
    let sin_w0 := sin w0 in
    let ratio_radius := JS.Math_pow 2 (25 / 1200) in
    let Q := 1 / (ratio_radius - 1 / ratio_radius) in
    let alpha := sin_w0 / (2 * Q) in
    let A := JS.Math_pow 10 (peakGainDB / 20) in
    let b0_rbj_num := 1 + alpha * A in
    let b1_rbj_num := -2 * cos_w0 in
    let b2_rbj_num := 1 - alpha * A in
    let a0_rbj_den := 1 + alpha / A in
    let a1_rbj_num := -2 * cos_w0 in
    let a2_rbj_num := 1 - alpha / A in
    if Req_dec_T a0_rbj_den 0 then pass_through Fs f0 peakGainDB
    else
      {| Fs := Fs; f0 := f0; peakGainDB := peakGainDB;
         b0 := b0_rbj_num / a0_rbj_den;
         b1 := b1_rbj_num / a0_rbj_den;
         b2 := b2_rbj_num / a0_rbj_den;
         a1 := a1_rbj_num / a0_rbj_den;
         a2 := a2_rbj_num / a0_rbj_den;
         x1 := JS.Num 0; x2 := JS.Num 0; y1 := JS.Num 0; y2 := JS.Num 0 |}.

(** [process] returns the filter after the call and the output sample. *)
Definition process (f : t) (inputSample : JS.num) : t * JS.num :=
  let x0 := inputSample in
  let outputSample :=
    (JS.Num (b0 f) * x0 + JS.Num (b1 f) * x1 f + JS.Num (b2 f) * x2 f
     - JS.Num (a1 f) * y1 f - JS.Num (a2 f) * y2 f)%num in
  ({| Fs := Fs f; f0 := f0 f; peakGainDB := peakGainDB f;
      b0 := b0 f; b1 := b1 f; b2 := b2 f; a1 := a1 f; a2 := a2 f;
      x1 := x0; x2 := x1 f; y1 := outputSample; y2 := y1 f |},
   outputSample).

(** The filter after a stream of samples, one [process] call each. *)
Definition feed (f : t) (samples : list JS.num) : t :=
  foldl (fun f x => (process f x).1) f samples.

End IIRBandBoostFilter.

(** ** script.js: [DelayedIIRBandBoostFilterPair] *)

Module DelayedIIRBandBoostFilterPair.

Local Open Scope R_scope.

Record t : Type := {
  Fs : R;
  f0 : R;
  peakGainDB : R;
  filter1 : IIRBandBoostFilter.t;
  filter2 : IIRBandBoostFilter.t;
  filter1Out : JS.num;
  filter2Out : JS.num;
  delayBuffer : list JS.num;
  delayIndex : JS.index;
  powerMean : JS.num
}.

(** [Math.round(wavelengthInSamples / 4)]. *)
Definition delayInSamples (midiNoteNumber samplingFrequency : R) : Z :=
  let wavelengthInSamples :=
    samplingFrequency / IIRBandBoostFilter.center_frequency midiNoteNumber in
  JS.Math_round (wavelengthInSamples / 4).

(** [None] is the [RangeError] of [new Float32Array(n)] at a negative
    [n]. *)
Definition new (midiNoteNumber samplingFrequency peakGainDB : R) : option t :=
  let d := delayInSamples midiNoteNumber samplingFrequency in
  if decide (d < 0)%Z then None
  else
    Some {| Fs := samplingFrequency;
            f0 := IIRBandBoostFilter.center_frequency midiNoteNumber;
            peakGainDB := peakGainDB;
            filter1 := IIRBandBoostFilter.new midiNoteNumber samplingFrequency peakGainDB;
            filter2 := IIRBandBoostFilter.new midiNoteNumber samplingFrequency peakGainDB;
            filter1Out := JS.Num 0;
            filter2Out := JS.Num 0;
            delayBuffer := replicate (Z.to_nat d) (JS.Num 0);
            delayIndex := Some 0%Z;
            powerMean := JS.Num 0 |}.

(** [process] returns the pair after the call and the two outputs. *)
Definition process (p : t) (inputSample : JS.num) : t * (JS.num * JS.num) :=
  let r1 := IIRBandBoostFilter.process (filter1 p) inputSample in
  let r2 := IIRBandBoostFilter.process (filter2 p)
              (JS.get (delayBuffer p) (delayIndex p)) in
  let buf := JS.set (delayBuffer p) (delayIndex p) inputSample in
  let idx := JS.rem (JS.plus (delayIndex p) 1) (Z.of_nat (length buf)) in
  let nowPower := (r1.2 * r1.2 + r2.2 * r2.2)%num in
  let alpha := 0.95 in
  ({| Fs := Fs p; f0 := f0 p; peakGainDB := peakGainDB p;
      filter1 := r1.1;
      filter2 := r2.1;
      filter1Out := r1.2;
      filter2Out := r2.2;
      delayBuffer := buf;
      delayIndex := idx;
      powerMean := (JS.Num alpha * powerMean p + JS.Num (1 - alpha) * nowPower)%num |},
   (r1.2, r2.2)).

Definition getInstantPower (p : t) : JS.num := powerMean p.

(** The pair after a stream of samples, one [process] call each. *)
Definition feed (p : t) (samples : list JS.num) : t :=
  foldl (fun p x => (process p x).1) p samples.

End DelayedIIRBandBoostFilterPair.

(** ** script.js: [EarProcessor] *)

Module EarProcessor.

Record t : Type := {
  filters : list DelayedIIRBandBoostFilterPair.t
}.

(** [Array.from({ length: 88 }, ...)]: note [i + 21] at index [i], with
    the default [peakGainDB] of 6.  [None] when a constructor throws. *)
Definition new (sampleRate : R) : option t :=
  fs ← mapM (fun i : nat =>
               DelayedIIRBandBoostFilterPair.new (INR i + 21) sampleRate 6)
            (seq 0 88);
  Some {| filters := fs |}.

(** The loop [for (i = 0; i < 88; ++i) data[i] = filters[i].getInstantPower()];
    [None] is the [TypeError] at a missing [filters[i]]. *)
Definition fill (fs : list DelayedIIRBandBoostFilterPair.t) (data : list JS.num)
  : option (list JS.num) :=
  foldl (fun acc i =>
           d ← acc;
           f ← fs !! i;
           Some (JS.set d (Some (Z.of_nat i))
                   (DelayedIIRBandBoostFilterPair.getInstantPower f)))
        (Some data) (seq 0 88).

(** [port.onmessage]: the messages posted in reply ([None]: it threw). *)
Definition onmessage (ep : t) (data : JS.message_data)
  : option (list JS.message_data) :=
  if bool_decide (JS.message data = Some "get-data"%string) then
    let requestId := JS.requestId data in
    match JS.buffer data with
    | None => Some []
    | Some b =>
        filled ← fill (filters ep) (JS.new_Float32Array (Some b));
        Some [ {| JS.type := None;
                  JS.message := Some "data"%string;
                  JS.buffer := Some (JS.ArrayBuffer filled);
                  JS.requestId := requestId |} ]
    end
  else Some [].

(** The inner loop of [process]: one sample through the 88 filters. *)
Definition process_sample (fs : list DelayedIIRBandBoostFilterPair.t)
    (inputSample : JS.num) : option (list DelayedIIRBandBoostFilterPair.t) :=
  foldl (fun acc i =>
           fs ← acc;
           f ← fs !! i;
           Some (<[i := (DelayedIIRBandBoostFilterPair.process f inputSample).1]> fs))
        (Some fs) (seq 0 88).

(** [process]; [None] is a [TypeError] at a missing [filters[i]]. *)
Definition process (ep : t) (inputs : list (list (list JS.num)))
  : option (t * bool) :=
  match inputs with
  | [] => Some (ep, true)
  | input :: _ =>
      match input with
      | [] => Some (ep, true)
      | inputChannel :: _ =>
          match inputChannel with
          | [] => Some (ep, true)
          | _ =>
              fs ← foldl (fun acc inputSample =>
                            fs ← acc; process_sample fs inputSample)
                         (Some (filters ep)) inputChannel;
              Some ({| filters := fs |}, true)
          end
      end
  end.

End EarProcessor.

(** ** script.js: the page side *)

(** What a method of the page side does to the outside: it posts a message
    through the port, calls the [resolve] or the [reject] function of a
    promise, or writes to the console.  The promise created by the call
    that drew request id [n] is called promise [n]; the entry of
    [pendingRequests] holds its two settling functions. *)
Inductive error : Type :=
| PostMessageError
| DestroyedError.

Inductive effect : Type :=
| PostMessage (data : JS.message_data)
| Resolve (promise : nat) (value : list JS.num)
| Reject (promise : nat) (reason : error)
| ConsoleWarn (requestId : nat)
| ConsoleLog.

(** The [{ resolve, reject }] object stored for a request. *)
Record settlers : Type := {
  promise : nat
}.

Module EarDataRequester.

Record t : Type := {
  pendingRequests : gmap nat settlers;
  requestIdCounter : nat;
  (** whether [port.onmessage] is still [_handleWorkerMessage] *)
  listening : bool
}.

Definition new : t :=
  {| pendingRequests := ∅; requestIdCounter := 0; listening := true |}.

Definition _handleWorkerMessage (r : t) (data : JS.message_data)
  : t * list effect :=
  if bool_decide (JS.message data = Some "data"%string) then
    match JS.requestId data with
    | Some requestId =>
        match pendingRequests r !! requestId with
        | Some s =>
            ({| pendingRequests := delete requestId (pendingRequests r);
                requestIdCounter := requestIdCounter r;
                listening := listening r |},
             [Resolve (promise s) (JS.new_Float32Array (JS.buffer data))])
        | None => (r, [ConsoleWarn requestId])
        end
    | None => (r, [])
    end
  else (r, []).

(** [getEarPowerData]; [post_ok] tells whether [port.postMessage]
    returns ([true]) or throws ([false]). *)
Definition getEarPowerData (r : t) (post_ok : bool) : t * list effect :=
  let requestId := requestIdCounter r in
  let pending := <[requestId := {| promise := requestId |}]> (pendingRequests r) in
  let bufferToFill := JS.ArrayBuffer (replicate 88 (JS.Num 0)) in
  if post_ok then
    ({| pendingRequests := pending;
        requestIdCounter := S requestId;
        listening := listening r |},
     [PostMessage {| JS.type := None;
                     JS.message := Some "get-data"%string;
                     JS.buffer := Some bufferToFill;
                     JS.requestId := Some requestId |}])
  else
    ({| pendingRequests := delete requestId pending;
        requestIdCounter := S requestId;
        listening := listening r |},
     [Reject requestId PostMessageError]).

(** [destroy]: [forEach] visits every entry once and calls its [reject];
    the visits are listed in the order the map enumerates its entries. *)
Definition destroy (r : t) : t * list effect :=
  ({| pendingRequests := ∅;
      requestIdCounter := requestIdCounter r;
      listening := false |},
   ((fun kv : nat * settlers => Reject (promise kv.2) DestroyedError)
      <$> map_to_list (pendingRequests r)) ++ [ConsoleLog]).

(** What can happen to a requester: a call of [getEarPowerData], a
    message event on the port, a call of [destroy]. *)
Inductive action : Type :=
| Request (post_ok : bool)
| Deliver (data : JS.message_data)
| Destroy.

Definition step (r : t) (a : action) : t * list effect :=
  match a with
  | Request post_ok => getEarPowerData r post_ok
  | Deliver data => if listening r then _handleWorkerMessage r data else (r, [])
  | Destroy => destroy r
  end.

(** The requester and the effects, oldest first, after a run. *)
Definition run (r : t) (actions : list action) : t * list effect :=
  foldl (fun st a => let '(r', es) := step st.1 a in (r', st.2 ++ es))
        (r, []) actions.

End EarDataRequester.

Module OscRender.

(** The fields [_setup] creates for the requests. *)
Record t : Type := {
  pendingRequests : gmap nat settlers;
  requestIdCounter : nat
}.

Definition _setup : t :=
  {| pendingRequests := ∅; requestIdCounter := 0 |}.

Definition _handleWorkerMessage (r : t) (data : JS.message_data)
  : t * list effect :=
  if bool_decide (JS.message data = Some "data"%string) then
    match JS.requestId data with
    | Some requestId =>
        match pendingRequests r !! requestId with
        | Some s =>
            ({| pendingRequests := delete requestId (pendingRequests r);
                requestIdCounter := requestIdCounter r |},
             [Resolve (promise s) (JS.new_Float32Array (JS.buffer data))])
        | None => (r, [ConsoleWarn requestId])
        end
    | None => (r, [])
    end
  else (r, []).

(** [_getOscData]: the [catch] block is empty. *)
Definition _getOscData (r : t) (post_ok : bool) : t * list effect :=
  let requestId := requestIdCounter r in
  let pending := <[requestId := {| promise := requestId |}]> (pendingRequests r) in
  let bufferToFill := JS.ArrayBuffer (replicate 128 (JS.Num 0)) in
  if post_ok then
    ({| pendingRequests := <[requestId := {| promise := requestId |}]> pending;
        requestIdCounter := S requestId |},
     [PostMessage {| JS.type := None;
                     JS.message := Some "dump"%string;
                     JS.buffer := Some bufferToFill;
                     JS.requestId := Some requestId |}])
  else
    ({| pendingRequests := pending;
        requestIdCounter := S requestId |},
     []).

End OscRender.

(** ** Runs and invariants used to state the properties *)

Module RingBufferRuns.

Import RotatingAudioBuffer.

(** Several [write] calls in a row, on typed arrays. *)
Definition write_all (rb : t) (blocks : list (list JS.num)) : t :=
  foldl (fun rb block => write rb (JS.VArr block)) rb blocks.

(** The state of a buffer of capacity [c] in terms of all the samples
    [h] written to it since it was created: it holds the last [c]
    elements of [c] zeros followed by [h], the one at position [p] in
    slot [p mod c]. *)
Definition holds (c : nat) (h : list JS.num) (rb : t) : Prop :=
  length rb = c /\
  Datatypes.length (buffer rb) = c /\
  writeIndex rb = Some (Z.of_nat (Datatypes.length h mod c)) /\
  forall p, Datatypes.length h <= p < Datatypes.length h + c ->
    buffer rb !! (p mod c) = (replicate c (JS.Num 0) ++ h) !! p.

End RingBufferRuns.

Module EstimatorRuns.

Import DelayedIIRBandBoostFilterPair.

(** A filter whose four remembered samples are numbers, not [NaN]. *)
Definition finite_filter (f : IIRBandBoostFilter.t) : Prop :=
  JS.finite (IIRBandBoostFilter.x1 f) /\ JS.finite (IIRBandBoostFilter.x2 f) /\
  JS.finite (IIRBandBoostFilter.y1 f) /\ JS.finite (IIRBandBoostFilter.y2 f).

(** A pair in working order: finite samples everywhere, the cursor inside
    the delay buffer, and a non-negative smoothed power. *)
Definition steady (p : t) : Prop :=
  finite_filter (filter1 p) /\
  finite_filter (filter2 p) /\
  Forall JS.finite (delayBuffer p) /\
  (exists i : nat, delayIndex p = Some (Z.of_nat i) /\ i < length (delayBuffer p)) /\
  JS.nonneg (powerMean p).

End EstimatorRuns.

Module RequesterRuns.

(** Whether an effect is a call of [resolve] or of [reject] of promise
    [p]. *)
Definition settles (p : nat) (e : effect) : bool :=
  match e with
  | Resolve q _ => bool_decide (q = p)
  | Reject q _ => bool_decide (q = p)
  | PostMessage _ | ConsoleWarn _ | ConsoleLog => false
  end.

(** How many times promise [p] has been settled in a run. *)
Definition settlements (p : nat) (es : list effect) : nat :=
  sum_list_with (fun e => if settles p e then 1 else 0) es.

(** The pending map against the effects so far: an entry holds the
    settling functions of the promise of its own request, which is not
    settled yet; a request that was issued and has no entry is settled
    exactly once; a request not yet issued is not settled. *)
Definition consistent (r : EarDataRequester.t) (es : list effect) : Prop :=
  (forall id s, EarDataRequester.pendingRequests r !! id = Some s ->
     promise s = id /\ id < EarDataRequester.requestIdCounter r /\
     settlements id es = 0) /\
  (forall id, id < EarDataRequester.requestIdCounter r ->
     EarDataRequester.pendingRequests r !! id = None ->
     settlements id es = 1) /\
  (forall id, EarDataRequester.requestIdCounter r <= id ->
     settlements id es = 0).

End RequesterRuns.


(** ** Further runs and invariants *)

Module RingBufferState.

Import RotatingAudioBuffer.

(** A buffer as [write] keeps it: as many slots as its [length] says, and
    the cursor on one of them. *)
Definition in_range (rb : t) : Prop :=
  Datatypes.length (buffer rb) = length rb /\
  exists w : nat, writeIndex rb = Some (Z.of_nat w) /\ w < length rb.

(** [readIndex = (readIndex + 1) % this.length]. *)
Definition next (rb : t) (readIndex : JS.index) : JS.index :=
  JS.rem (JS.plus readIndex 1) (Z.of_nat (length rb)).

End RingBufferState.

Module OscWorkerRuns.

(** What the audio side asks of the worker: a [process] call on a render
    quantum, or a message event on its port. *)
Inductive action : Type :=
| Process (inputs : list (list (list JS.num)))
| Message (data : JS.message_data).

(** One action on the worker: the worker after it and the messages it
    posts; [None] when [process] throws. *)
Definition step (w : OscWorker.t) (a : action)
  : option (OscWorker.t * list JS.message_data) :=
  match a with
  | Process inputs =>
      match OscWorker.process w inputs with
      | Some (w', _) => Some (w', [])
      | None => None
      end
  | Message data => Some (OscWorker.handleMessage w data)
  end.

(** The worker and all the messages posted, oldest first, after a run. *)
Definition run (w : OscWorker.t) (actions : list action)
  : option (OscWorker.t * list JS.message_data) :=
  foldl (fun acc a =>
           match acc with
           | Some (w, posted) =>
               match step w a with
               | Some (w', replies) => Some (w', posted ++ replies)
               | None => None
               end
           | None => None
           end)
        (Some (w, [])) actions.

End OscWorkerRuns.

Module OscRenderRuns.

(** What happens to the request side of [OscRender]: a [_getOscData] call
    whose post returns or throws, or a message event on the port. *)
Inductive action : Type :=
| GetOscData (post_ok : bool)
| Deliver (data : JS.message_data).

Definition step (r : OscRender.t) (a : action) : OscRender.t * list effect :=
  match a with
  | GetOscData post_ok => OscRender._getOscData r post_ok
  | Deliver data => OscRender._handleWorkerMessage r data
  end.

Definition run (r : OscRender.t) (actions : list action)
  : OscRender.t * list effect :=
  foldl (fun st a => let '(r', es) := step st.1 a in (r', st.2 ++ es))
        (r, []) actions.

(** A message that some [OscWorker] posts in answer to some message. *)
Definition from_worker (data : JS.message_data) : Prop :=
  exists (w : OscWorker.t) (m : JS.message_data),
    data ∈ (OscWorker.handleMessage w m).2.

End OscRenderRuns.

Module EstimatorState.

Import DelayedIIRBandBoostFilterPair.

(** The delay line of a pair seen as a ring buffer: its slots and its
    cursor. *)
Definition ring_of (p : t) : RotatingAudioBuffer.t :=
  {| RotatingAudioBuffer.length := length (delayBuffer p);
     RotatingAudioBuffer.buffer := delayBuffer p;
     RotatingAudioBuffer.writeIndex := delayIndex p |}.

(** [b] is the finite number [a] times [c]. *)
Definition scaled_num (c : R) (a b : JS.num) : Prop :=
  exists r : R, a = JS.Num r /\ b = JS.Num (c * r).

(** Two filters with the same coefficients, the remembered samples of the
    second [c] times those of the first. *)
Definition scaled_filter (c : R) (f f' : IIRBandBoostFilter.t) : Prop :=
  IIRBandBoostFilter.b0 f' = IIRBandBoostFilter.b0 f /\
  IIRBandBoostFilter.b1 f' = IIRBandBoostFilter.b1 f /\
  IIRBandBoostFilter.b2 f' = IIRBandBoostFilter.b2 f /\
  IIRBandBoostFilter.a1 f' = IIRBandBoostFilter.a1 f /\
  IIRBandBoostFilter.a2 f' = IIRBandBoostFilter.a2 f /\
  scaled_num c (IIRBandBoostFilter.x1 f) (IIRBandBoostFilter.x1 f') /\
  scaled_num c (IIRBandBoostFilter.x2 f) (IIRBandBoostFilter.x2 f') /\
  scaled_num c (IIRBandBoostFilter.y1 f) (IIRBandBoostFilter.y1 f') /\
  scaled_num c (IIRBandBoostFilter.y2 f) (IIRBandBoostFilter.y2 f').

(** Two pairs in step, the second having heard [c] times what the first
    has heard. *)
Definition scaled_pair (c : R) (p p' : t) : Prop :=
  scaled_filter c (filter1 p) (filter1 p') /\
  scaled_filter c (filter2 p) (filter2 p') /\
  Forall2 (scaled_num c) (delayBuffer p) (delayBuffer p') /\
  (exists i : nat, delayIndex p = Some (Z.of_nat i) /\
                   delayIndex p' = Some (Z.of_nat i) /\
                   i < length (delayBuffer p)) /\
  scaled_num (c * c) (powerMean p) (powerMean p').

End EstimatorState.

Module BankRuns.

(** The samples [EarProcessor.process] looks at: the first channel of the
    first input, and nothing when either is missing. *)
Definition first_channel (inputs : list (list (list JS.num))) : list JS.num :=
  match inputs with
  | (channel :: _) :: _ => channel
  | _ => []
  end.

(** The request ids of the messages posted in a run, oldest first. *)
Definition posted_ids (es : list effect) : list nat :=
  omap (fun e => match e with
                 | PostMessage data => JS.requestId data
                 | _ => None
                 end) es.

(** The number of [getEarPowerData] calls among some actions. *)
Definition requests (actions : list EarDataRequester.action) : nat :=
  length (List.filter (fun a => match a with
                                | EarDataRequester.Request _ => true
                                | _ => false
                                end) actions).

End BankRuns.

(** ** script.js: [hslToRgb] *)

Module Numeric.

Local Open Scope R_scope.

(** The integer part of a finite number, towards zero. *)
Definition trunc (x : R) : Z :=
  if Rle_dec 0 x then Int_part x else (- Int_part (- x))%Z.

(** [x % y] on finite numbers, [y] not zero: the remainder of the
    truncated division, with the sign of [x]. *)
Definition fmod (x y : R) : R := x - y * IZR (trunc (x / y)).

End Numeric.

(** [hslToRgb(h, s, l)] on finite arguments; the result is the array of
    the three rounded channels. *)
Definition hslToRgb (h s l : R) : list Z :=
  let s := (s / 100)%R in
  let l := (l / 100)%R in
  let k := fun n : R => Numeric.fmod (n + h / 30) 12 in
  let a := (s * Rmin l (1 - l))%R in
  let f := fun n : R =>
    (l - a * Rmax (-1) (Rmin (k n - 3) (Rmin (9 - k n) 1)))%R in
  [JS.Math_round (255 * f 0%R)%R;
   JS.Math_round (255 * f 8%R)%R;
   JS.Math_round (255 * f 4%R)%R].

(** ** The MIDI monitor page (the script of the HTML file) *)

From Stdlib Require Import Ascii.

Module MidiMonitor.

Local Open Scope string_scope.

(** The digit of [toString(16)] for a value below 16. *)
Definition digit (d : nat) : ascii :=
  nth d (list_ascii_of_string "0123456789abcdef") "0"%char.

(** [x.toString(16)] on a natural number: the hexadecimal digits, most
    significant first, no leading zero; [fuel] bounds the number of
    digits. *)
Fixpoint toString16_digits (fuel x : nat) : string :=
  match fuel with
  | O => ""
  | S fuel =>
      if (x <? 16)%nat then String (digit x) ""
      else toString16_digits fuel (x / 16) +:+ String (digit (x mod 16)) ""
  end.

Definition toString16 (x : nat) : string := toString16_digits (S x) x.

(** [s.padStart(n, c)] for a one-character [c]. *)
Definition padStart (n : nat) (c : ascii) (s : string) : string :=
  string_of_list_ascii (replicate (n - String.length s) c) +:+ s.

(** [Array.from(data).map(x => x.toString(16).padStart(2, '0')).join(' ')]. *)
Definition hexData (data : list nat) : string :=
  String.concat " " ((fun x => padStart 2 "0"%char (toString16 x)) <$> data).

(** The line logged for a message of the input called [name]. *)
Definition line (name : string) (data : list nat) : string :=
  "[" +:+ hexData data +:+ "] " +:+ name.

(** The page: the two globals, the children of the log, the text of the
    button, the counter of the handlers that [beginCapture] installed
    last, and whether the inputs have a handler. *)
Record t : Type := {
  capturing : bool;
  midiAccess : bool;
  log : list string;
  buttonText : string;
  eventCount : nat;
  listening : bool
}.

(** The page as loaded: [midiAccess] is [null], the button reads
    [Capture!]. *)
Definition initial : t :=
  {| capturing := false; midiAccess := false; log := [];
     buttonText := "Capture!"; eventCount := 0; listening := false |}.

(** A message of one byte that is the clock or active sensing. *)
Definition skipped (data : list nat) : bool :=
  match data with
  | [x] => (x =? 248)%nat || (x =? 254)%nat
  | _ => false
  end.

(** The handler [beginCapture] installs on every input. *)
Definition onmidimessage (m : t) (name : string) (data : list nat) : t :=
  if (eventCount m <? 1000)%nat && capturing m then
    if skipped data then m
    else
      {| capturing := capturing m; midiAccess := midiAccess m;
         log := log m ++ [line name data];
         buttonText := buttonText m;
         eventCount := S (eventCount m);
         listening := listening m |}
  else m.

Definition beginCapture (m : t) : t :=
  {| capturing := true; midiAccess := midiAccess m; log := log m;
     buttonText := "Stop!"; eventCount := 0; listening := true |}.

(** [startCapture]; without access it asks for it, and the answer comes
    later as [onMIDISuccess] or [onMIDIFailure]. *)
Definition startCapture (m : t) : t :=
  let m := {| capturing := capturing m; midiAccess := midiAccess m; log := [];
              buttonText := buttonText m; eventCount := eventCount m;
              listening := listening m |} in
  if midiAccess m then beginCapture m else m.

Definition stopCapture (m : t) : t :=
  {| capturing := false; midiAccess := midiAccess m; log := [];
     buttonText := "Capture!"; eventCount := eventCount m;
     listening := if midiAccess m then false else listening m |}.

Definition onMIDISuccess (m : t) : t :=
  beginCapture
    {| capturing := capturing m; midiAccess := true; log := log m;
       buttonText := buttonText m; eventCount := eventCount m;
       listening := listening m |}.

Definition onMIDIFailure (m : t) : t :=
  {| capturing := capturing m; midiAccess := false; log := log m;
     buttonText := buttonText m; eventCount := eventCount m;
     listening := listening m |}.

(** What happens to the page: a click on the button, the answer to a
    request for access, a message on an input. *)
Inductive event : Type :=
| Click
| AccessGranted
| AccessDenied
| MidiMessage (name : string) (data : list nat).

Definition step (m : t) (e : event) : t :=
  match e with
  | Click => if capturing m then stopCapture m else startCapture m
  | AccessGranted => onMIDISuccess m
  | AccessDenied => onMIDIFailure m
  | MidiMessage name data => if listening m then onmidimessage m name data else m
  end.

Definition run (m : t) (events : list event) : t := foldl step m events.

(** A reader of the dump, to state that the dump loses nothing. *)
Definition digit_value (c : ascii) : option nat :=
  list_find (fun d => digit d = c) (seq 0 16) ≫= fun p => Some p.1.

Fixpoint read_hexData (s : string) : option (list nat) :=
  match s with
  | "" => Some []
  | String c1 (String c2 rest) =>
      match digit_value c1, digit_value c2 with
      | Some hi, Some lo =>
          match rest with
          | "" => Some [16 * hi + lo]
          | String c rest' =>
              if Ascii.eqb c " "%char then
                match read_hexData rest' with
                | Some bytes => Some (16 * hi + lo :: bytes)
                | None => None
                end
              else None
          end
      | _, _ => None
      end
  | String _ "" => None
  end.

End MidiMonitor.

Module FilterRuns.

Import IIRBandBoostFilter.

(** The output samples of a filter on a stream, one [process] call per
    sample. *)
Fixpoint responses (f : t) (samples : list JS.num) : list JS.num :=
  match samples with
  | [] => []
  | x :: samples => (process f x).2 :: responses (process f x).1 samples
  end.

(** [s] is the sum of the finite numbers [a] and [b]. *)
Definition added_num (a b s : JS.num) : Prop :=
  exists x y : R, a = JS.Num x /\ b = JS.Num y /\ s = JS.Num (x + y).

(** Three filters with the same coefficients, the remembered samples of
    the third the sums of those of the first two. *)
Definition added_filter (f g s : t) : Prop :=
  (b0 g = b0 f /\ b1 g = b1 f /\ b2 g = b2 f /\ a1 g = a1 f /\ a2 g = a2 f) /\
  (b0 s = b0 f /\ b1 s = b1 f /\ b2 s = b2 f /\ a1 s = a1 f /\ a2 s = a2 f) /\
  added_num (x1 f) (x1 g) (x1 s) /\ added_num (x2 f) (x2 g) (x2 s) /\
  added_num (y1 f) (y1 g) (y1 s) /\ added_num (y2 f) (y2 g) (y2 s).

End FilterRuns.
(** * Properties *)

(** ** Indices and typed arrays *)

Section TypedArrays.

Implicit Types (a : list JS.num) (x : JS.num).

Lemma rem_in_range (z c : Z) :
  (0 <= z)%Z -> (0 < c)%Z -> JS.rem (Some z) c = Some (z mod c)%Z.
Proof.
  intros Hz Hc. unfold JS.rem.
  destruct (decide (c = 0%Z)) as [->|_]; [lia|].
  by rewrite Z.rem_mod_nonneg by lia.
Qed.

Lemma get_at (a : list JS.num) (i : nat) :
  JS.get a (Some (Z.of_nat i)) = default JS.NaN (a !! i).
Proof.
  unfold JS.get. destruct (decide (0 <= Z.of_nat i)%Z); [|lia].
  by rewrite Nat2Z.id.
Qed.

Lemma set_at (a : list JS.num) (i : nat) x :
  JS.set a (Some (Z.of_nat i)) x = <[i := x]> a.
Proof.
  unfold JS.set. destruct (decide (0 <= Z.of_nat i)%Z); [|lia].
  by rewrite Nat2Z.id.
Qed.

Lemma length_set a (i : JS.index) x : length (JS.set a i x) = length a.
Proof.
  destruct i as [z|]; simpl; [|done].
  destruct (decide _); [apply length_insert | done].
Qed.

Lemma next_index (i c : nat) :
  0 < c ->
  JS.rem (JS.plus (Some (Z.of_nat i)) 1) (Z.of_nat c)
  = Some (Z.of_nat (S i mod c)).
Proof.
  intros Hc. simpl JS.plus. rewrite rem_in_range by lia.
  f_equal. rewrite Nat2Z.inj_mod. f_equal. lia.
Qed.

End TypedArrays.

(** ** Loops *)

Section Loops.

Context {A B : Type}.

Lemma foldl_ext_elem (f g : B -> A -> B) (l : list A) (b : B) :
  (forall b x, x ∈ l -> f b x = g b x) -> foldl f b l = foldl g b l.
Proof.
  revert b. induction l as [|x l IH]; intros b Hfg; [done|].
  simpl. rewrite Hfg by left. apply IH.
  intros b' y Hy. apply Hfg. by right.
Qed.

Lemma foldl_snoc (f : B -> A -> B) (l : list A) (x : A) (b : B) :
  foldl f b (l ++ [x]) = f (foldl f b l) x.
Proof. by rewrite foldl_app. Qed.

End Loops.

Lemma item_array (a : list JS.num) (i : nat) :
  JS.item (JS.VArr a) i = default JS.NaN (a !! i).
Proof. apply get_at. Qed.

(** A loop over the indices of a typed array that only reads the element
    at its index is a loop over the elements. *)
Lemma foldl_items {B : Type} (f : B -> JS.num -> B) (xs : list JS.num) (b : B) :
  foldl (fun b i => f b (JS.item (JS.VArr xs) i)) b (seq 0 (length xs))
  = foldl f b xs.
Proof.
  induction xs as [|x xs IH] using rev_ind; [done|].
  rewrite length_app, Nat.add_1_r, seq_S, !foldl_snoc.
  rewrite Nat.add_0_l, item_array, list_lookup_middle by done.
  change (default JS.NaN (Some x)) with x. f_equal.
  rewrite <- IH. apply foldl_ext_elem.
  intros b' i Hi. apply elem_of_seq in Hi.
  by rewrite !item_array, lookup_app_l by lia.
Qed.

(** ** The ring buffer *)

Section RingBuffer.

Import RotatingAudioBuffer RingBufferRuns.

(** Writing a typed array runs the loop body once per element. *)
Lemma write_array (rb : t) (xs : list JS.num) :
  write rb (JS.VArr xs) = foldl write_step rb xs.
Proof. unfold write. simpl JS.length_of. apply (foldl_items write_step). Qed.

(** Writing a number runs it not at all. *)
Lemma write_number (rb : t) (x : JS.num) : write rb (JS.VNum x) = rb.
Proof. done. Qed.

Lemma holds_new (c : nat) : 0 < c -> holds c [] (new c).
Proof.
  intros Hc. split; [done|]. split; [apply length_replicate|]. split; simpl.
  - by rewrite Nat.Div0.mod_0_l.
  - intros p Hp. rewrite app_nil_r, Nat.mod_small by lia. done.
Qed.

Lemma holds_write_step (c : nat) (h : list JS.num) (rb : t) (x : JS.num) :
  0 < c -> holds c h rb -> holds c (h ++ [x]) (write_step rb x).
Proof.
  intros Hc (Hlen & Hbuf & Hidx & Hslots).
  pose proof (Nat.mod_upper_bound (Datatypes.length h) c ltac:(lia)) as Hw.
  unfold write_step. rewrite Hidx, Hlen, set_at, next_index by done.
  split; [done|]. split; [simpl; by rewrite length_insert|]. split; simpl.
  - rewrite length_app. simpl.
    replace (S (Datatypes.length h mod c)) with (Datatypes.length h mod c + 1) by lia.
    by rewrite Nat.Div0.add_mod_idemp_l.
  - intros p. rewrite length_app. simpl. intros Hp.
    destruct (decide (p = Datatypes.length h + c)) as [->|Hne].
    + rewrite <- Nat.Div0.add_mod_idemp_r, Nat.Div0.mod_same, Nat.add_0_r.
      rewrite list_lookup_insert_eq by lia.
      rewrite app_assoc, lookup_app_r; rewrite length_app, length_replicate; [|lia].
      by replace (Datatypes.length h + c - (c + Datatypes.length h)) with 0 by lia.
    + rewrite list_lookup_insert_ne.
      * rewrite Hslots by lia.
        rewrite app_assoc, (lookup_app_l (replicate c (JS.Num 0) ++ h) [x]); [done|].
        rewrite length_app, length_replicate. lia.
      * intros Heq.
        assert (p = Datatypes.length h + (p - Datatypes.length h)) as Hsplit by lia.
        rewrite Hsplit in Heq.
        rewrite <- (Nat.Div0.add_mod_idemp_l (Datatypes.length h)) in Heq.
        set (w := Datatypes.length h mod c) in *.
        set (k := p - Datatypes.length h) in *.
        assert (0 < k < c) by (unfold k; lia).
        destruct (decide (w + k < c)).
        -- rewrite Nat.mod_small in Heq; lia.
        -- replace (w + k) with ((w + k - c) + 1 * c) in Heq by lia.
           rewrite Nat.Div0.mod_add, Nat.mod_small in Heq; lia.
Qed.

Lemma holds_write (c : nat) (h : list JS.num) (rb : t) (xs : list JS.num) :
  0 < c -> holds c h rb -> holds c (h ++ xs) (write rb (JS.VArr xs)).
Proof.
  intros Hc. rewrite write_array. revert h rb.
  induction xs as [|x xs IH]; intros h rb Hrb; simpl.
  - by rewrite app_nil_r.
  - replace (h ++ x :: xs) with ((h ++ [x]) ++ xs) by by rewrite <- app_assoc.
    apply IH. by apply holds_write_step.
Qed.

Lemma holds_write_all (c : nat) (blocks : list (list JS.num)) :
  0 < c -> holds c (concat blocks) (write_all (new c) blocks).
Proof.
  intros Hc. unfold write_all.
  induction blocks as [|block blocks IH] using rev_ind; [by apply holds_new|].
  rewrite foldl_snoc, concat_app. simpl. rewrite app_nil_r.
  by apply holds_write.
Qed.

(** The loop of [read], started at slot [z], after [k] rounds. *)
Lemma read_loop (c z : nat) (rb : t) (target : list JS.num) (k : nat) :
  0 < c -> length rb = c -> z < c -> k <= Datatypes.length target ->
  foldl (read_step rb) (target, Some (Z.of_nat z)) (seq 0 k)
  = (((fun i => default JS.NaN (buffer rb !! ((z + i) mod c))) <$> seq 0 k)
       ++ drop k target,
     Some (Z.of_nat ((z + k) mod c))).
Proof.
  intros Hc Hlen Hz. induction k as [|k IH]; intros Hk.
  - simpl. by rewrite drop_0, Nat.add_0_r, Nat.mod_small.
  - rewrite seq_S, foldl_snoc, IH by lia. unfold read_step. simpl fst; simpl snd.
    rewrite Hlen, set_at, get_at, next_index by done. f_equal.
    + rewrite fmap_app. simpl. rewrite <- app_assoc. simpl.
      rewrite insert_app_r_alt; rewrite length_fmap, length_seq; [|lia].
      rewrite Nat.sub_diag.
      destruct (lookup_lt_is_Some_2 target k ltac:(lia)) as [y Hy].
      by rewrite (drop_S _ _ _ Hy).
    + do 2 f_equal.
      replace (S ((z + k) mod c)) with ((z + k) mod c + 1) by lia.
      rewrite Nat.Div0.add_mod_idemp_l. f_equal. lia.
Qed.

(** [read] into a target of length [L <= c] delivers the last [L] of the
    [c] zeros followed by everything written. *)
Lemma read_recent (c : nat) (h : list JS.num) (rb : t) (target : list JS.num) :
  0 < c -> holds c h rb -> Datatypes.length target <= c ->
  (read rb target).2
  = drop (Datatypes.length h + c - Datatypes.length target)
         (replicate c (JS.Num 0) ++ h).
Proof.
  intros Hc (Hlen & Hbuf & Hidx & Hslots) HL.
  set (L := Datatypes.length target) in *.
  set (w := Datatypes.length h mod c).
  pose proof (Nat.mod_upper_bound (Datatypes.length h) c ltac:(lia)) as Hw.
  fold w in Hw, Hidx.
  unfold read. fold L. rewrite Hidx, Hlen. simpl JS.plus.
  rewrite rem_in_range by lia.
  replace (Z.of_nat w + - Z.of_nat L + Z.of_nat c)%Z
    with (Z.of_nat (w + c - L)) by lia.
  rewrite <- Nat2Z.inj_mod.
  rewrite (read_loop c) by (done || lia || apply Nat.mod_upper_bound; lia).
  simpl snd.
  change (drop L target) with (drop (Datatypes.length target) target).
  rewrite drop_all, app_nil_r.
  apply list_eq. intros i.
  rewrite list_lookup_fmap, lookup_drop.
  destruct (decide (i < L)) as [Hi|Hi].
  - rewrite lookup_seq_lt by done. simpl.
    rewrite Nat.Div0.add_mod_idemp_l.
    replace ((w + c - L + i) mod c)
      with ((Datatypes.length h + c - L + i) mod c).
    + rewrite Hslots by lia.
      destruct (lookup_lt_is_Some_2 (replicate c (JS.Num 0) ++ h)
                  (Datatypes.length h + c - L + i)) as [y Hy].
      { rewrite length_app, length_replicate. lia. }
      by rewrite Hy.
    + replace (Datatypes.length h + c - L + i)
        with (Datatypes.length h + (c - L + i)) by lia.
      rewrite <- Nat.Div0.add_mod_idemp_l. fold w. f_equal. lia.
  - rewrite lookup_seq_ge by lia. simpl.
    symmetry. apply lookup_ge_None_2.
    rewrite length_app, length_replicate. lia.
Qed.

Lemma read_frame (rb : t) (target : list JS.num) : (read rb target).1 = rb.
Proof. done. Qed.

(** C6.  Ring buffer round trip.  Into a fresh buffer of any capacity,
    write any blocks of samples, [N] samples in all.  If [N <= capacity],
    [read] into a target of length [N] leaves in it exactly the samples
    written, in order; if [N > capacity], [read] into a target of length
    [capacity] leaves in it exactly the last [capacity] samples written,
    oldest first.  In both cases the buffer object after [read] is the
    one before it: contents and [writeIndex] are unchanged. *)
Theorem ring_buffer_round_trip
    (capacity : nat) (blocks : list (list JS.num)) (target : list JS.num) :
  let written := concat blocks in
  let rb := write_all (new capacity) blocks in
  (Datatypes.length written <= capacity ->
   Datatypes.length target = Datatypes.length written ->
   (read rb target).2 = written) /\
  (capacity < Datatypes.length written ->
   Datatypes.length target = capacity ->
   (read rb target).2 = drop (Datatypes.length written - capacity) written) /\
  (read rb target).1 = rb.
Proof.
  intros written rb.
  destruct (decide (capacity = 0)) as [->|Hc].
  - split; [|split; [|done]].
    + intros Hn Ht. destruct written; [|simpl in Hn; lia].
      by destruct target.
    + intros _ Ht. destruct target; [|done].
      by rewrite Nat.sub_0_r, drop_all.
  - pose proof (holds_write_all capacity blocks ltac:(lia)) as Hrb.
    fold written rb in Hrb.
    split; [|split; [|done]].
    + intros Hn Ht.
      rewrite (read_recent capacity written) by (done || lia).
      rewrite Ht.
      replace (Datatypes.length written + capacity - Datatypes.length written)
        with capacity by lia.
      by rewrite drop_app_length'; [|rewrite length_replicate].
    + intros Hn Ht.
      rewrite (read_recent capacity written) by (done || lia).
      rewrite Ht, drop_app_ge; rewrite length_replicate; [|lia].
      f_equal. lia.
Qed.

Lemma ring_buffer_round_trip_witness :
  (read (write_all (new 4) [[JS.Num 1; JS.Num 2]; [JS.Num 3]])
        [JS.NaN; JS.NaN; JS.NaN]).2
  = [JS.Num 1; JS.Num 2; JS.Num 3]
  /\
  (read (write_all (new 2) [[JS.Num 1; JS.Num 2]; [JS.Num 3]])
        [JS.NaN; JS.NaN]).2
  = [JS.Num 2; JS.Num 3].
Proof.
  split.
  - apply (proj1 (ring_buffer_round_trip 4 [[JS.Num 1; JS.Num 2]; [JS.Num 3]]
                    [JS.NaN; JS.NaN; JS.NaN])); simpl; lia.
  - apply (proj1 (proj2 (ring_buffer_round_trip 2 [[JS.Num 1; JS.Num 2]; [JS.Num 3]]
                           [JS.NaN; JS.NaN]))); simpl; lia.
Defined.

End RingBuffer.

(** ** The two audio processors on one block *)

Section Blocks.

Import DelayedIIRBandBoostFilterPair.

Lemma process_sample_prefix (fs : list t) (x : JS.num) (k : nat) :
  k <= length fs ->
  foldl (fun acc i =>
           fs ← acc;
           f ← fs !! i;
           Some (<[i := (process f x).1]> fs))
        (Some fs) (seq 0 k)
  = Some (((fun f => (process f x).1) <$> take k fs) ++ drop k fs).
Proof.
  induction k as [|k IH]; intros Hk.
  - done.
  - rewrite seq_S, foldl_snoc, IH by lia. simpl.
    destruct (lookup_lt_is_Some_2 fs k ltac:(lia)) as [f Hf].
    rewrite lookup_app_r; rewrite length_fmap, length_take, Nat.min_l; try lia.
    rewrite Nat.sub_diag, (drop_S _ _ _ Hf). simpl. f_equal.
    rewrite insert_app_r_alt; rewrite length_fmap, length_take, Nat.min_l; try lia.
    rewrite Nat.sub_diag. simpl.
    rewrite (take_S_r _ _ _ Hf), fmap_app, <- app_assoc. done.
Qed.

(** One sample goes through each of the 88 filters once, in index
    order. *)
Lemma process_sample_all (fs : list t) (x : JS.num) :
  length fs = 88 ->
  EarProcessor.process_sample fs x = Some ((fun f => (process f x).1) <$> fs).
Proof.
  intros Hlen. unfold EarProcessor.process_sample.
  rewrite process_sample_prefix by lia.
  by rewrite <- Hlen, firstn_all, drop_all, app_nil_r.
Qed.

Lemma process_block_all (fs : list t) (block : list JS.num) :
  length fs = 88 ->
  foldl (fun acc x => fs ← acc; EarProcessor.process_sample fs x) (Some fs) block
  = Some ((fun f => feed f block) <$> fs).
Proof.
  revert fs. induction block as [|x block IH]; intros fs Hlen; simpl.
  - by rewrite list_fmap_id.
  - rewrite process_sample_all by done. rewrite IH by by rewrite length_fmap.
    by rewrite <- list_fmap_compose.
Qed.

(** [EarProcessor.process] on a block with samples: every filter of the
    bank is fed the samples of the first channel, in order. *)
Lemma EarProcessor_process_feeds
    (ep : EarProcessor.t) (x : JS.num) (rest : list JS.num)
    (channels : list (list JS.num)) (inputs : list (list (list JS.num))) :
  length (EarProcessor.filters ep) = 88 ->
  EarProcessor.process ep (((x :: rest) :: channels) :: inputs)
  = Some ({| EarProcessor.filters :=
               (fun f => feed f (x :: rest)) <$> EarProcessor.filters ep |},
          true).
Proof.
  intros Hlen. unfold EarProcessor.process.
  by rewrite process_block_all.
Qed.

(** [OscWorker.process] hands [write] the first sample of the channel, a
    number, so the ring buffer is never written. *)
Lemma OscWorker_process_unchanged
    (w : OscWorker.t) (inputs : list (list (list JS.num))) :
  OscWorker.process w inputs
  = match inputs with [] => None | _ :: _ => Some (w, true) end.
Proof.
  destruct inputs as [|[|[|x channel] channels] inputs]; try done.
  simpl. by destruct w.
Qed.

End Blocks.

(** ** The biquad filter *)

Section Biquad.

Import IIRBandBoostFilter.
Local Open Scope R_scope.

Lemma center_frequency_pos (midiNoteNumber : R) :
  0 < center_frequency midiNoteNumber.
Proof.
  unfold center_frequency, JS.Math_pow, Rpower.
  pose proof (exp_pos ((midiNoteNumber - 69) / 12 * ln 2)). lra.
Qed.

(** Whole octaves above A4 double the frequency. *)
Lemma center_frequency_octaves (n : nat) :
  center_frequency (69 + 12 * INR n) = 440 * 2 ^ n.
Proof.
  unfold center_frequency, JS.Math_pow.
  replace ((69 + 12 * INR n - 69) / 12) with (INR n) by lra.
  rewrite Rpower_pow by lra. done.
Qed.

(** The top note of the piano, C8, lies a little above 4186 Hz. *)
Lemma center_frequency_108 : 4186 < center_frequency 108 < 4187.
Proof.
  unfold center_frequency, JS.Math_pow.
  replace ((108 - 69) / 12) with (13 / 4) by lra.
  set (x := Rpower 2 (13 / 4)).
  assert (0 < x) as Hpos by apply exp_pos.
  assert (x ^ 4 = 8192) as Hx.
  { rewrite <- Rpower_pow by done. unfold x. rewrite Rpower_mult.
    replace (13 / 4 * INR 4) with (INR 13) by (simpl; lra).
    rewrite Rpower_pow by lra. simpl. lra. }
  split.
  - apply Rnot_le_lt. intros Hle.
    assert (x <= 4186 / 440) as Hb by lra.
    assert (x ^ 4 <= (4186 / 440) ^ 4) by (apply pow_incr; lra).
    lra.
  - apply Rnot_le_lt. intros Hle.
    assert (4187 / 440 <= x) as Hb by lra.
    assert ((4187 / 440) ^ 4 <= x ^ 4) by (apply pow_incr; lra).
    lra.
Qed.
Lemma new_out_of_range (midiNoteNumber Fs peakGainDB : R) :
  center_frequency midiNoteNumber <= 0 \/ center_frequency midiNoteNumber >= Fs / 2 ->
  new midiNoteNumber Fs peakGainDB
  = pass_through Fs (center_frequency midiNoteNumber) peakGainDB.
Proof.
  intros Hrange. unfold new.
  destruct (Rle_dec _ _); [done|].
  destruct (Rge_dec _ _); [done|]. lra.
Qed.

(** C9.  One call of [process] on input [x0] returns
    [y0 = b0 x0 + b1 x1 + b2 x2 - a1 y1 - a2 y2], computed from the state
    before the call, and leaves the filter with [x2 <- x1], [x1 <- x0],
    [y2 <- y1], [y1 <- y0] and every other field as it was: the result
    and the new state are a function of the old state and the input.
    The first part states it for any numbers, the second for finite
    ones, where the arithmetic is that of the reals. *)
Theorem process_difference_equation :
  (forall (f : t) (x0 : JS.num),
     let y0 := (JS.Num (b0 f) * x0 + JS.Num (b1 f) * x1 f + JS.Num (b2 f) * x2 f
                - JS.Num (a1 f) * y1 f - JS.Num (a2 f) * y2 f)%num in
     process f x0
     = ({| Fs := Fs f; f0 := f0 f; peakGainDB := peakGainDB f;
           b0 := b0 f; b1 := b1 f; b2 := b2 f; a1 := a1 f; a2 := a2 f;
           x1 := x0; x2 := x1 f; y1 := y0; y2 := y1 f |}, y0))
  /\
  (forall Fs f0 gain b0 b1 b2 a1 a2 x0 x1 x2 y1 y2 : R,
     let y0 := b0 * x0 + b1 * x1 + b2 * x2 - a1 * y1 - a2 * y2 in
     process {| Fs := Fs; f0 := f0; peakGainDB := gain;
                b0 := b0; b1 := b1; b2 := b2; a1 := a1; a2 := a2;
                x1 := JS.Num x1; x2 := JS.Num x2;
                y1 := JS.Num y1; y2 := JS.Num y2 |} (JS.Num x0)
     = ({| Fs := Fs; f0 := f0; peakGainDB := gain;
           b0 := b0; b1 := b1; b2 := b2; a1 := a1; a2 := a2;
           x1 := JS.Num x0; x2 := JS.Num x1;
           y1 := JS.Num y0; y2 := JS.Num y1 |}, JS.Num y0)).
Proof. split; reflexivity. Qed.

(** A pass-through filter that has only seen finite samples holds finite
    samples and still has the identity coefficients. *)
Lemma feed_pass_through (Fs f0 gain : R) (history : list R) :
  exists x1 x2 y1 y2 : R,
    feed (pass_through Fs f0 gain) (JS.Num <$> history)
    = {| IIRBandBoostFilter.Fs := Fs; IIRBandBoostFilter.f0 := f0;
         peakGainDB := gain;
         b0 := 1; b1 := 0; b2 := 0; a1 := 0; a2 := 0;
         x1 := JS.Num x1; x2 := JS.Num x2;
         y1 := JS.Num y1; y2 := JS.Num y2 |}.
Proof.
  unfold feed.
  induction history as [|x history IH] using rev_ind.
  - by exists 0, 0, 0, 0.
  - destruct IH as (x1 & x2 & y1 & y2 & IH).
    rewrite fmap_app, foldl_app, IH. simpl.
    by eexists _, _, _, _.
Qed.

(** C5.  When the centre frequency [440 * 2 ^ ((midiNote - 69) / 12)] is
    at most 0 or at least [sampleRate / 2], the constructor sets the
    identity coefficients [b0 = 1], [b1 = b2 = a1 = a2 = 0], and in every
    state reached from the initial one on a stream of (finite) samples
    [process x] returns [x]. *)
Theorem out_of_range_filter_is_identity (midiNoteNumber sampleRate peakGainDB : R) :
  center_frequency midiNoteNumber <= 0
  \/ center_frequency midiNoteNumber >= sampleRate / 2 ->
  let f := new midiNoteNumber sampleRate peakGainDB in
  (b0 f = 1 /\ b1 f = 0 /\ b2 f = 0 /\ a1 f = 0 /\ a2 f = 0) /\
  forall (history : list R) (x : R),
    (process (feed f (JS.Num <$> history)) (JS.Num x)).2 = JS.Num x.
Proof.
  intros Hrange f. unfold f. rewrite new_out_of_range by done.
  split; [done|]. intros history x.
  destruct (feed_pass_through sampleRate (center_frequency midiNoteNumber)
              peakGainDB history) as (x1 & x2 & y1 & y2 & ->).
  simpl. f_equal. lra.
Qed.

Lemma out_of_range_filter_is_identity_witness :
  b0 (new 69 800 6) = 1 /\
  (process (feed (new 69 800 6) [JS.Num 1; JS.Num (-2)]) (JS.Num 3)).2 = JS.Num 3.
Proof.
  assert (center_frequency 69 <= 0 \/ center_frequency 69 >= 800 / 2) as Hrange.
  { right. replace 69 with (69 + 12 * INR 0) by (simpl; lra).
    rewrite center_frequency_octaves. simpl. lra. }
  split.
  - apply (out_of_range_filter_is_identity 69 800 6 Hrange).
  - apply (proj2 (out_of_range_filter_is_identity 69 800 6 Hrange) [1; -2] 3).
Defined.

End Biquad.

(** ** The delayed filter pair *)

Section Rounding.

Local Open Scope R_scope.

Lemma Math_round_bounds (x : R) :
  IZR (JS.Math_round x) <= x + / 2 < IZR (JS.Math_round x) + 1.
Proof.
  unfold JS.Math_round.
  destruct (base_Int_part (x + / 2)) as [Hle Hgt]. lra.
Qed.

Lemma Math_round_nonneg (x : R) : 0 <= x -> (0 <= JS.Math_round x)%Z.
Proof.
  intros Hx. pose proof (Math_round_bounds x) as [_ Hlt].
  assert (-1 < JS.Math_round x)%Z by (apply lt_IZR; lra). lia.
Qed.

Lemma Math_round_ge_1 (x : R) : / 2 <= x <-> (1 <= JS.Math_round x)%Z.
Proof.
  pose proof (Math_round_bounds x) as [Hle Hlt]. split.
  - intros Hx. assert (0 < JS.Math_round x)%Z by (apply lt_IZR; lra). lia.
  - intros Hr. apply IZR_le in Hr. lra.
Qed.

Lemma Math_round_0 (x : R) : 0 <= x < / 2 -> JS.Math_round x = 0%Z.
Proof.
  intros Hx. pose proof (Math_round_nonneg x ltac:(lra)).
  destruct (decide (1 <= JS.Math_round x)%Z) as [Hge|]; [|lia].
  apply Math_round_ge_1 in Hge. lra.
Qed.

End Rounding.

Section Pair.

Import DelayedIIRBandBoostFilterPair.
Local Open Scope R_scope.

Local Abbreviation center_frequency := IIRBandBoostFilter.center_frequency.

(** A quarter wavelength is half a sample or more exactly when the note
    is not above half the sample rate. *)
Lemma quarter_wavelength (midiNoteNumber sampleRate : R) :
  / 2 <= sampleRate / center_frequency midiNoteNumber / 4
  <-> center_frequency midiNoteNumber <= sampleRate / 2.
Proof.
  pose proof (center_frequency_pos midiNoteNumber) as Hpos.
  set (f := center_frequency midiNoteNumber) in *.
  replace (sampleRate / f / 4) with (sampleRate / 4 / f) by (field; lra).
  split; intros H.
  - apply (Rmult_le_compat_r f) in H; [|lra].
    unfold Rdiv in H at 1. rewrite Rmult_assoc, Rinv_l in H; lra.
  - apply (Rmult_le_reg_r f); [lra|].
    unfold Rdiv at 1. rewrite Rmult_assoc, Rinv_l; lra.
Qed.

Lemma quarter_wavelength_nonneg (midiNoteNumber sampleRate : R) :
  0 <= sampleRate -> 0 <= sampleRate / center_frequency midiNoteNumber / 4.
Proof.
  intros Hs. pose proof (center_frequency_pos midiNoteNumber) as Hpos.
  apply Rmult_le_pos; [|lra].
  apply Rmult_le_pos; [lra|]. left. by apply Rinv_0_lt_compat.
Qed.

(** What the constructor builds when it does not throw. *)
Lemma new_Some (midiNoteNumber sampleRate peakGainDB : R) (p : t) :
  new midiNoteNumber sampleRate peakGainDB = Some p ->
  (0 <= delayInSamples midiNoteNumber sampleRate)%Z /\
  delayBuffer p
  = replicate (Z.to_nat (delayInSamples midiNoteNumber sampleRate)) (JS.Num 0) /\
  delayIndex p = Some 0%Z /\
  powerMean p = JS.Num 0 /\
  filter1 p = IIRBandBoostFilter.new midiNoteNumber sampleRate peakGainDB /\
  filter2 p = IIRBandBoostFilter.new midiNoteNumber sampleRate peakGainDB.
Proof.
  unfold new. destruct (decide _) as [|Hd]; [done|].
  intros [= <-]. simpl. split; [lia|done].
Qed.

Lemma new_is_Some (midiNoteNumber sampleRate peakGainDB : R) :
  0 <= sampleRate -> is_Some (new midiNoteNumber sampleRate peakGainDB).
Proof.
  intros Hs. unfold new, delayInSamples.
  pose proof (Math_round_nonneg _ (quarter_wavelength_nonneg midiNoteNumber _ Hs)).
  destruct (decide _); [lia|]. by eexists.
Qed.

(** At or below half the sample rate the delay line has a slot. *)
Lemma new_nonempty (midiNoteNumber sampleRate peakGainDB : R) :
  center_frequency midiNoteNumber <= sampleRate / 2 ->
  exists p, new midiNoteNumber sampleRate peakGainDB = Some p /\
            (1 <= length (delayBuffer p))%nat.
Proof.
  intros Hf. pose proof (center_frequency_pos midiNoteNumber) as Hpos.
  destruct (new_is_Some midiNoteNumber sampleRate peakGainDB ltac:(lra)) as [p Hp].
  exists p. split; [done|].
  destruct (new_Some _ _ _ _ Hp) as (_ & -> & _).
  rewrite length_replicate.
  apply quarter_wavelength, Math_round_ge_1 in Hf.
  unfold delayInSamples. lia.
Qed.

(** Above half the sample rate it has none. *)
Lemma new_empty (midiNoteNumber sampleRate peakGainDB : R) :
  0 <= sampleRate < 2 * center_frequency midiNoteNumber ->
  exists p, new midiNoteNumber sampleRate peakGainDB = Some p /\
            delayBuffer p = [].
Proof.
  intros Hf.
  destruct (new_is_Some midiNoteNumber sampleRate peakGainDB ltac:(lra)) as [p Hp].
  exists p. split; [done|].
  destruct (new_Some _ _ _ _ Hp) as (_ & -> & _).
  unfold delayInSamples. rewrite Math_round_0; [done|].
  split; [apply quarter_wavelength_nonneg; lra|].
  apply Rnot_le_lt. intros Hge. apply quarter_wavelength in Hge. lra.
Qed.

(** C2, as the code has it.  The constructor sizes the delay buffer at
    [round((sampleRate / f0) / 4)] and does not clamp it: whenever the
    constructor returns, the buffer has exactly that length and the
    cursor starts at 0; the length is at least 1 when [f0] is at most
    half the sample rate, where the cursor advance modulo the length is
    then defined, and it is 0 when [f0] is above half the (non-negative)
    sample rate. *)
Theorem delay_length_is_rounded_quarter_wavelength
    (midiNoteNumber sampleRate peakGainDB : R) :
  (forall p, new midiNoteNumber sampleRate peakGainDB = Some p ->
     Z.of_nat (length (delayBuffer p))
     = JS.Math_round (sampleRate / center_frequency midiNoteNumber / 4)
     /\ delayIndex p = Some 0%Z) /\
  (center_frequency midiNoteNumber <= sampleRate / 2 ->
   exists p, new midiNoteNumber sampleRate peakGainDB = Some p /\
     (1 <= length (delayBuffer p))%nat /\
     JS.rem (JS.plus (delayIndex p) 1) (Z.of_nat (length (delayBuffer p)))
     = Some (1 mod Z.of_nat (length (delayBuffer p)))%Z) /\
  (0 <= sampleRate < 2 * center_frequency midiNoteNumber ->
   exists p, new midiNoteNumber sampleRate peakGainDB = Some p /\
     length (delayBuffer p) = 0%nat).
Proof.
  split; [|split].
  - intros p Hp. destruct (new_Some _ _ _ _ Hp) as (Hd & -> & -> & _).
    split; [|done]. rewrite length_replicate. unfold delayInSamples in *. lia.
  - intros Hf.
    destruct (new_nonempty _ _ peakGainDB Hf) as (p & Hp & Hlen).
    exists p. split; [done|]. split; [done|].
    destruct (new_Some _ _ _ _ Hp) as (_ & _ & -> & _).
    simpl JS.plus. by rewrite rem_in_range by lia.
  - intros Hf.
    destruct (new_empty _ _ peakGainDB Hf) as (p & Hp & Hbuf).
    exists p. by rewrite Hbuf.
Qed.

Lemma center_frequency_69 : center_frequency 69 = 440.
Proof.
  replace 69 with (69 + 12 * INR 0) by (simpl; lra).
  rewrite center_frequency_octaves. simpl. lra.
Qed.

Lemma delay_length_is_rounded_quarter_wavelength_witness :
  (exists p, new 69 44100 6 = Some p /\
     Z.of_nat (length (delayBuffer p)) = JS.Math_round (44100 / center_frequency 69 / 4)
     /\ (1 <= length (delayBuffer p))%nat) /\
  (exists p, new 108 8000 6 = Some p /\ length (delayBuffer p) = 0%nat).
Proof.
  assert (center_frequency 69 <= 44100 / 2) as H69
    by (rewrite center_frequency_69; lra).
  assert (0 <= 8000 < 2 * center_frequency 108) as H108
    by (pose proof center_frequency_108; lra).
  split.
  - destruct (proj1 (proj2 (delay_length_is_rounded_quarter_wavelength 69 44100 6)) H69)
      as (p & Hp & Hlen & _).
    exists p. split; [done|]. split; [|done].
    apply (proj1 (delay_length_is_rounded_quarter_wavelength 69 44100 6) p Hp).
  - apply (proj2 (proj2 (delay_length_is_rounded_quarter_wavelength 108 8000 6)) H108).
Defined.

(** C2 as stated fails: at 8000 samples per second the top note of the
    bank, note 108 (a little above 4186 Hz), has a quarter wavelength of
    less than half a sample, which rounds to 0; the constructor builds
    an empty delay buffer. *)
Lemma delay_length_not_clamped :
  exists p, new 108 8000 6 = Some p /\
    JS.Math_round ((8000 / center_frequency 108) / 4) = 0%Z /\
    length (delayBuffer p) = 0%nat /\
    ~ (1 <= length (delayBuffer p))%nat.
Proof.
  pose proof center_frequency_108 as H108.
  destruct (new_empty 108 8000 6 ltac:(lra)) as (p & Hp & Hbuf).
  exists p. split; [done|]. rewrite Hbuf. split; [|split; [done|simpl; lia]].
  apply Math_round_0. split; [apply quarter_wavelength_nonneg; lra|].
  apply Rnot_le_lt. intros Hge. apply quarter_wavelength in Hge. lra.
Qed.

End Pair.

Section Power.

Import DelayedIIRBandBoostFilterPair EstimatorRuns.
Local Open Scope R_scope.

Local Abbreviation center_frequency := IIRBandBoostFilter.center_frequency.

Lemma finite_Num (a : JS.num) : JS.finite a -> exists r, a = JS.Num r.
Proof. destruct a; [by eexists | done]. Qed.

Lemma finite_filter_new (midiNoteNumber sampleRate peakGainDB : R) :
  finite_filter (IIRBandBoostFilter.new midiNoteNumber sampleRate peakGainDB).
Proof.
  unfold IIRBandBoostFilter.new.
  repeat (destruct (Rle_dec _ _) || destruct (Rge_dec _ _)
          || destruct (Req_dec_T _ _)); done.
Qed.

Lemma finite_filter_process (f : IIRBandBoostFilter.t) (x : R) :
  finite_filter f ->
  finite_filter (IIRBandBoostFilter.process f (JS.Num x)).1 /\
  JS.finite (IIRBandBoostFilter.process f (JS.Num x)).2.
Proof.
  intros (H1 & H2 & H3 & H4).
  destruct (finite_Num _ H1) as [x1 E1], (finite_Num _ H2) as [x2 E2],
    (finite_Num _ H3) as [y1 E3], (finite_Num _ H4) as [y2 E4].
  unfold IIRBandBoostFilter.process, finite_filter. simpl.
  rewrite E1, E2, E3, E4. simpl. done.
Qed.

Lemma steady_new (midiNoteNumber sampleRate peakGainDB : R) (p : t) :
  new midiNoteNumber sampleRate peakGainDB = Some p ->
  (1 <= length (delayBuffer p))%nat -> steady p.
Proof.
  intros Hp Hlen.
  destruct (new_Some _ _ _ _ Hp) as (_ & Hbuf & Hidx & Hpow & Hf1 & Hf2).
  unfold steady. rewrite Hf1, Hf2, Hidx.
  split; [apply finite_filter_new|]. split; [apply finite_filter_new|].
  split; [rewrite Hbuf; by apply Forall_replicate|].
  split; [exists 0%nat; split; [done|lia]|].
  rewrite Hpow. simpl. lra.
Qed.

Lemma steady_process (p : t) (x : R) :
  steady p -> steady (process p (JS.Num x)).1.
Proof.
  intros (Hf1 & Hf2 & Hbuf & (i & Hidx & Hi) & Hpow).
  destruct (lookup_lt_is_Some_2 _ _ Hi) as [d Hd].
  pose proof (Forall_lookup_1 _ _ _ _ Hbuf Hd) as Hfin.
  destruct (finite_Num _ Hfin) as [dr ->].
  destruct (finite_filter_process _ x Hf1) as [Hf1' Ho1].
  destruct (finite_filter_process _ dr Hf2) as [Hf2' Ho2].
  unfold process. rewrite Hidx, get_at, Hd, set_at, length_insert, next_index by lia.
  simpl default.
  destruct (finite_Num _ Ho1) as [o1 ->], (finite_Num _ Ho2) as [o2 ->].
  split; [done|]. split; [done|]. simpl.
  split; [by apply Forall_insert|].
  split.
  - eexists. split; [done|]. rewrite length_insert.
    apply Nat.mod_upper_bound. lia.
  - destruct (powerMean p) as [pm|]; [|done]. simpl in *. nra.
Qed.

Lemma steady_feed (p : t) (samples : list R) :
  steady p -> steady (feed p (JS.Num <$> samples)).
Proof.
  unfold feed. revert p.
  induction samples as [|x samples IH]; intros p Hp; [done|].
  simpl. apply IH. by apply steady_process.
Qed.

(** With an empty delay buffer the second filter is fed [undefined], and
    one sample makes the smoothed power [NaN]. *)
Lemma empty_delay_gives_NaN (p : t) (x : JS.num) :
  delayBuffer p = [] -> getInstantPower (process p x).1 = JS.NaN.
Proof.
  intros Hbuf. unfold getInstantPower, process. simpl. rewrite Hbuf.
  assert (JS.get [] (delayIndex p) = JS.NaN) as ->.
  { destruct (delayIndex p) as [z|]; [|done]. simpl. by destruct (decide _). }
  unfold IIRBandBoostFilter.process. simpl.
  destruct (_ - _)%num, (powerMean p); done.
Qed.

(** C8, as the code has it.  [powerMean] starts at 0, and every [process]
    step replaces it by [0.95 powerMean + 0.05 (out1^2 + out2^2)]; for a
    pair whose delay buffer is not empty, [getInstantPower] is at least
    0 after every stream of (finite) samples. *)
Theorem instant_power_nonneg (midiNoteNumber sampleRate peakGainDB : R) (p : t) :
  new midiNoteNumber sampleRate peakGainDB = Some p ->
  (1 <= length (delayBuffer p))%nat ->
  getInstantPower p = JS.Num 0 /\
  (forall (q : t) (x : JS.num),
     let out := (process q x).2 in
     getInstantPower (process q x).1
     = (JS.Num 0.95 * getInstantPower q
        + JS.Num 0.05 * (out.1 * out.1 + out.2 * out.2))%num) /\
  forall samples : list R,
    JS.nonneg (getInstantPower (feed p (JS.Num <$> samples))).
Proof.
  intros Hp Hlen. split; [|split].
  - by destruct (new_Some _ _ _ _ Hp) as (_ & _ & _ & Hpow & _).
  - intros q x. unfold getInstantPower, process. simpl.
    replace (1 - 0.95) with 0.05 by lra. done.
  - intros samples.
    by destruct (steady_feed p samples (steady_new _ _ _ _ Hp Hlen))
      as (_ & _ & _ & _ & Hpow).
Qed.

Lemma instant_power_nonneg_witness :
  exists p, new 69 44100 6 = Some p /\
    JS.nonneg (getInstantPower (feed p [JS.Num 1; JS.Num (-1)])).
Proof.
  assert (center_frequency 69 <= 44100 / 2) as H69
    by (rewrite center_frequency_69; lra).
  destruct (new_nonempty 69 44100 6 H69) as (p & Hp & Hlen).
  exists p. split; [done|].
  apply (proj2 (proj2 (instant_power_nonneg 69 44100 6 p Hp Hlen)) [1; -1]).
Defined.

(** C8 as stated fails on a pair with an empty delay buffer: at 8000
    samples per second the pair of note 108, the last of the bank,
    answers [NaN] after its first sample, and [NaN >= 0] is false. *)
Lemma instant_power_NaN :
  exists p, new 108 8000 6 = Some p /\
    getInstantPower (feed p [JS.Num 0]) = JS.NaN /\
    ~ JS.nonneg (getInstantPower (feed p [JS.Num 0])).
Proof.
  pose proof center_frequency_108 as H108.
  destruct (new_empty 108 8000 6 ltac:(lra)) as (p & Hp & Hbuf).
  exists p. split; [done|].
  change (feed p [JS.Num 0]) with (process p (JS.Num 0)).1.
  rewrite (empty_delay_gives_NaN p (JS.Num 0) Hbuf). split; [done|]. simpl. tauto.
Qed.

End Power.

(** ** The filter bank and its power snapshot *)

Section Bank.

Local Open Scope R_scope.

Lemma EarProcessor_new_Some (sampleRate : R) (ep : EarProcessor.t) :
  EarProcessor.new sampleRate = Some ep ->
  length (EarProcessor.filters ep) = 88%nat /\
  forall (i : nat) (f : DelayedIIRBandBoostFilterPair.t),
    EarProcessor.filters ep !! i = Some f ->
    DelayedIIRBandBoostFilterPair.new (INR i + 21) sampleRate 6 = Some f.
Proof.
  unfold EarProcessor.new. intros Hnew.
  assert (length (seq 0 88) = 88%nat) as Hlen by apply length_seq.
  assert (forall i j : nat, seq 0 88 !! i = Some j -> j = i) as Hseq
    by (intros i j Hj; by apply lookup_seq in Hj as [-> _]).
  revert Hnew Hlen Hseq. generalize (seq 0 88). intros notes Hnew Hlen Hseq.
  destruct (mapM _ notes) as [fs|] eqn:Hfs; [|discriminate Hnew].
  injection Hnew as <-. cbn [EarProcessor.filters].
  apply mapM_Some in Hfs. split.
  - by rewrite <- (Forall2_length _ _ _ Hfs).
  - intros i f Hf.
    destruct (Forall2_lookup_r _ _ _ _ _ Hfs Hf) as (j & Hj & Hnewj).
    by rewrite <- (Hseq _ _ Hj).
Qed.

Lemma EarProcessor_new_is_Some (sampleRate : R) :
  0 <= sampleRate -> is_Some (EarProcessor.new sampleRate).
Proof.
  intros Hs. unfold EarProcessor.new. generalize (seq 0 88). intros notes.
  destruct (mapM_is_Some_2
              (fun i : nat => DelayedIIRBandBoostFilterPair.new (INR i + 21) sampleRate 6)
              notes) as [fs ->]; [|by eexists].
  apply Forall_forall. intros i _. exact (new_is_Some (INR i + 21) sampleRate 6 Hs).
Qed.

(** A fresh bank has 88 pairs, each with smoothed power 0. *)
Lemma EarProcessor_new_silent (sampleRate : R) (ep : EarProcessor.t) :
  EarProcessor.new sampleRate = Some ep ->
  DelayedIIRBandBoostFilterPair.getInstantPower <$> EarProcessor.filters ep
  = replicate 88 (JS.Num 0).
Proof.
  intros Hnew. destruct (EarProcessor_new_Some _ _ Hnew) as [Hlen Hfs].
  apply list_eq_same_length with 88%nat;
    [apply length_replicate | by rewrite length_fmap |].
  intros i x y Hi. rewrite list_lookup_fmap, lookup_replicate_2 by done.
  destruct (EarProcessor.filters ep !! i) as [f|] eqn:Hf; [|done].
  apply Hfs, new_Some in Hf as (_ & _ & _ & Hpow & _).
  simpl. unfold DelayedIIRBandBoostFilterPair.getInstantPower. congruence.
Qed.

Lemma fill_prefix (fs : list DelayedIIRBandBoostFilterPair.t)
    (data : list JS.num) (k : nat) :
  (k <= length fs)%nat -> (k <= length data)%nat ->
  foldl (fun acc i =>
           d ← acc;
           f ← fs !! i;
           Some (JS.set d (Some (Z.of_nat i))
                   (DelayedIIRBandBoostFilterPair.getInstantPower f)))
        (Some data) (seq 0 k)
  = Some ((DelayedIIRBandBoostFilterPair.getInstantPower <$> take k fs)
            ++ drop k data).
Proof.
  induction k as [|k IH]; intros Hfs Hdata; [done|].
  rewrite seq_S, foldl_snoc, IH by lia. simpl.
  destruct (lookup_lt_is_Some_2 fs k ltac:(lia)) as [f Hf].
  destruct (lookup_lt_is_Some_2 data k ltac:(lia)) as [d Hd].
  rewrite Hf. simpl. destruct (decide _); [|lia]. f_equal. rewrite Nat2Z.id.
  rewrite insert_app_r_alt; rewrite length_fmap, length_take, Nat.min_l; try lia.
  rewrite Nat.sub_diag, (drop_S _ _ _ Hd). simpl.
  by rewrite (take_S_r _ _ _ Hf), fmap_app, <- app_assoc.
Qed.

(** The [get-data] loop stores [filters[i].getInstantPower()] in slot
    [i], for [i] from 0 to 87. *)
Lemma fill_all (fs : list DelayedIIRBandBoostFilterPair.t) (data : list JS.num) :
  length fs = 88%nat -> length data = 88%nat ->
  EarProcessor.fill fs data
  = Some (DelayedIIRBandBoostFilterPair.getInstantPower <$> fs).
Proof.
  intros Hfs Hdata. unfold EarProcessor.fill.
  rewrite fill_prefix by lia.
  rewrite <- Hfs at 1. rewrite firstn_all, <- Hdata, drop_all. by rewrite app_nil_r.
Qed.

(** C10.  A power snapshot asked of a bank that has processed no sample
    yet.  [getInstantPower] returns [powerMean] as it is.  On any bank of
    88 pairs, whatever their powers, the handler answers a [get-data]
    request carrying 88 floats, whatever they are, with one reply that
    carries the request id and, in slot [i], the [powerMean] of
    [filters[i]], for [i] from 0 to 87.  A bank fresh from the constructor
    has 88 pairs, pair [i] built for note [i + 21], each with [powerMean]
    0, so that its reply holds 88 values all equal to 0. *)
Theorem first_power_snapshot_is_silent (sampleRate : R) :
  (forall p : DelayedIIRBandBoostFilterPair.t,
     DelayedIIRBandBoostFilterPair.getInstantPower p
     = DelayedIIRBandBoostFilterPair.powerMean p) /\
  (forall (bank : EarProcessor.t) (ty : option string) (requestId : option nat)
          (floats : list JS.num),
     length (EarProcessor.filters bank) = 88%nat ->
     length floats = 88%nat ->
     EarProcessor.fill (EarProcessor.filters bank) floats
     = Some (DelayedIIRBandBoostFilterPair.powerMean <$> EarProcessor.filters bank) /\
     EarProcessor.onmessage bank
       {| JS.type := ty; JS.message := Some "get-data"%string;
          JS.buffer := Some (JS.ArrayBuffer floats);
          JS.requestId := requestId |}
     = Some [ {| JS.type := None; JS.message := Some "data"%string;
                 JS.buffer :=
                   Some (JS.ArrayBuffer
                           (DelayedIIRBandBoostFilterPair.powerMean
                              <$> EarProcessor.filters bank));
                 JS.requestId := requestId |} ]) /\
  (0 <= sampleRate ->
   exists ep, EarProcessor.new sampleRate = Some ep /\
     length (EarProcessor.filters ep) = 88%nat /\
     (forall (i : nat) (p : DelayedIIRBandBoostFilterPair.t),
        EarProcessor.filters ep !! i = Some p ->
        DelayedIIRBandBoostFilterPair.new (INR i + 21) sampleRate 6 = Some p /\
        DelayedIIRBandBoostFilterPair.powerMean p = JS.Num 0) /\
     forall (ty : option string) (requestId : option nat) (floats : list JS.num),
       length floats = 88%nat ->
       EarProcessor.onmessage ep
         {| JS.type := ty; JS.message := Some "get-data"%string;
            JS.buffer := Some (JS.ArrayBuffer floats);
            JS.requestId := requestId |}
       = Some [ {| JS.type := None; JS.message := Some "data"%string;
                   JS.buffer := Some (JS.ArrayBuffer (replicate 88 (JS.Num 0)));
                   JS.requestId := requestId |} ]
       /\ EarProcessor.fill (EarProcessor.filters ep) floats
          = Some (DelayedIIRBandBoostFilterPair.getInstantPower
                    <$> EarProcessor.filters ep)).
Proof.
  assert (forall (bank : EarProcessor.t) (ty : option string)
                 (requestId : option nat) (floats : list JS.num),
            length (EarProcessor.filters bank) = 88%nat ->
            length floats = 88%nat ->
            EarProcessor.fill (EarProcessor.filters bank) floats
            = Some (DelayedIIRBandBoostFilterPair.powerMean
                      <$> EarProcessor.filters bank) /\
            EarProcessor.onmessage bank
              {| JS.type := ty; JS.message := Some "get-data"%string;
                 JS.buffer := Some (JS.ArrayBuffer floats);
                 JS.requestId := requestId |}
            = Some [ {| JS.type := None; JS.message := Some "data"%string;
                        JS.buffer :=
                          Some (JS.ArrayBuffer
                                  (DelayedIIRBandBoostFilterPair.powerMean
                                     <$> EarProcessor.filters bank));
                        JS.requestId := requestId |} ]) as Hany.
  { intros bank ty requestId floats Hbank Hlen.
    assert (EarProcessor.fill (EarProcessor.filters bank) floats
            = Some (DelayedIIRBandBoostFilterPair.powerMean
                      <$> EarProcessor.filters bank)) as Hfill
      by (by rewrite fill_all).
    split; [done|].
    unfold EarProcessor.onmessage.
    cbn [JS.message JS.buffer JS.requestId JS.new_Float32Array].
    by rewrite bool_decide_eq_true_2, Hfill by done. }
  split; [done|]. split; [exact Hany|].
  intros Hs. destruct (EarProcessor_new_is_Some sampleRate Hs) as [ep Hep].
  exists ep. split; [done|].
  destruct (EarProcessor_new_Some _ _ Hep) as [Hfs Hnotes].
  split; [done|]. split.
  - intros i p Hp. split; [by apply Hnotes|].
    by destruct (new_Some _ _ _ _ (Hnotes i p Hp)) as (_ & _ & _ & Hpow & _).
  - intros ty requestId floats Hlen.
    rewrite fill_all by done. split; [|done].
    destruct (Hany ep ty requestId floats Hfs Hlen) as [_ ->].
    change (DelayedIIRBandBoostFilterPair.powerMean <$> EarProcessor.filters ep)
      with (DelayedIIRBandBoostFilterPair.getInstantPower <$> EarProcessor.filters ep).
    by rewrite (EarProcessor_new_silent _ _ Hep).
Qed.

Lemma first_power_snapshot_is_silent_witness :
  exists ep ep1,
    EarProcessor.new 44100 = Some ep /\
    EarProcessor.onmessage ep
      {| JS.type := None; JS.message := Some "get-data"%string;
         JS.buffer := Some (JS.ArrayBuffer (replicate 88 (JS.Num 0)));
         JS.requestId := Some 7%nat |}
    = Some [ {| JS.type := None; JS.message := Some "data"%string;
                JS.buffer := Some (JS.ArrayBuffer (replicate 88 (JS.Num 0)));
                JS.requestId := Some 7%nat |} ] /\
    EarProcessor.process ep [[[JS.Num 1; JS.Num (-1)]]] = Some (ep1, true) /\
    EarProcessor.onmessage ep1
      {| JS.type := None; JS.message := Some "get-data"%string;
         JS.buffer := Some (JS.ArrayBuffer (replicate 88 (JS.Num 9)));
         JS.requestId := Some 8%nat |}
    = Some [ {| JS.type := None; JS.message := Some "data"%string;
                JS.buffer :=
                  Some (JS.ArrayBuffer
                          (DelayedIIRBandBoostFilterPair.powerMean
                             <$> EarProcessor.filters ep1));
                JS.requestId := Some 8%nat |} ].
Proof.
  destruct (first_power_snapshot_is_silent 44100) as (_ & Hany & Hfresh).
  destruct (Hfresh ltac:(lra)) as (ep & Hep & Hlen & _ & Hreply).
  pose proof (EarProcessor_process_feeds ep (JS.Num 1) [JS.Num (-1)] [] [] Hlen)
    as Hprocess.
  eexists ep, _. split; [done|]. split.
  - apply (Hreply None (Some 7%nat) (replicate 88 (JS.Num 0))).
    apply length_replicate.
  - split; [exact Hprocess|].
    apply (Hany _ None (Some 8%nat) (replicate 88 (JS.Num 9))).
    + cbn [EarProcessor.filters]. by rewrite length_fmap.
    + apply length_replicate.
Defined.

End Bank.

(** ** The oscilloscope worker *)

Section Oscilloscope.

Local Open Scope R_scope.

(** C1, where the code departs from it.  [EarProcessor.process] feeds
    the block to the 88 pairs ([EarProcessor_process_feeds]), but
    [OscWorker.process], which receives the same block, passes
    [input[0][0]], the first sample, to [write], where [EarProcessor]
    takes the channel [input[0]]: whatever the inputs, the worker and
    its ring buffer come out as they went in.  On the block 1, 2, 3 and
    a buffer of 4 slots: the buffer stays at four zeros, while [write]
    on the block itself would have stored the three samples. *)
Theorem ring_buffer_never_written :
  (forall (w : OscWorker.t) (inputs : list (list (list JS.num))),
     OscWorker.process w inputs
     = match inputs with [] => None | _ :: _ => Some (w, true) end)
  /\
  let block := [JS.Num 1; JS.Num 2; JS.Num 3] in
  let w := OscWorker.new 4 in
  OscWorker.process w [[block]] = Some (w, true) /\
  RotatingAudioBuffer.buffer (OscWorker.rotatingBuffer w)
  = [JS.Num 0; JS.Num 0; JS.Num 0; JS.Num 0] /\
  RotatingAudioBuffer.write (OscWorker.rotatingBuffer w) (JS.VArr block)
  = {| RotatingAudioBuffer.length := 4;
       RotatingAudioBuffer.buffer := [JS.Num 1; JS.Num 2; JS.Num 3; JS.Num 0];
       RotatingAudioBuffer.writeIndex := Some 3%Z |}.
Proof.
  split; [apply OscWorker_process_unchanged|]. by vm_compute.
Qed.

(** What [handleMessage] does on a message it accepts: one reply, of
    type [dumped], holding what [read] left in the array, and without a
    request id. *)
Lemma handleMessage_dump (w : OscWorker.t) (m : option string)
    (requestId : option nat) (x : JS.num) (elems : list JS.num) :
  OscWorker.handleMessage w
    {| JS.type := Some "dump"%string; JS.message := m;
       JS.buffer := Some (JS.Float32Array (x :: elems));
       JS.requestId := requestId |}
  = (w, [ {| JS.type := Some "dumped"%string; JS.message := None;
             JS.buffer :=
               Some (JS.ArrayBuffer
                       (RotatingAudioBuffer.read (OscWorker.rotatingBuffer w)
                          (x :: elems)).2);
             JS.requestId := None |} ]).
Proof. by destruct w. Qed.

(** No reply of [handleMessage] carries a request id or the [data] tag
    the page listens for. *)
Lemma handleMessage_replies (w : OscWorker.t) (data : JS.message_data) :
  Forall (fun reply => JS.requestId reply = None /\ JS.message reply = None)
         (OscWorker.handleMessage w data).2.
Proof.
  unfold OscWorker.handleMessage.
  destruct (bool_decide _); [|by constructor].
  destruct (JS.has_positive_length _); [|by constructor].
  by repeat constructor.
Qed.

(** C3, where the code departs from it.  The request [_getOscData]
    posts carries the tag under [message], the request id and an
    [ArrayBuffer] of 128 floats; [handleMessage] looks for the tag under
    [type] and for a [length] the [ArrayBuffer] does not have, and
    replies nothing.  And whatever the message, a reply of
    [handleMessage] has no request id, and the page side drops it
    without settling a request. *)
Theorem dump_request_is_not_answered :
  (forall (r : OscRender.t) (w : OscWorker.t),
     exists request,
       (OscRender._getOscData r true).2 = [PostMessage request] /\
       JS.message request = Some "dump"%string /\
       JS.requestId request = Some (OscRender.requestIdCounter r) /\
       JS.buffer request = Some (JS.ArrayBuffer (replicate 128 (JS.Num 0))) /\
       OscWorker.handleMessage w request = (w, []))
  /\
  (forall (r : OscRender.t) (w : OscWorker.t) (data : JS.message_data),
     Forall (fun reply =>
               JS.requestId reply = None /\
               OscRender._handleWorkerMessage r reply = (r, []))
            (OscWorker.handleMessage w data).2).
Proof.
  split.
  - intros r w. eexists. by repeat split.
  - intros r w data.
    eapply Forall_impl; [apply handleMessage_replies|].
    intros reply [Hid Hmsg]. split; [done|].
    unfold OscRender._handleWorkerMessage. by rewrite Hmsg.
Qed.

End Oscilloscope.

(** ** The snapshot requester *)

Section Requester.

Import EarDataRequester RequesterRuns.

Implicit Types (r : EarDataRequester.t) (es : list effect).

Lemma settlements_app (p : nat) es es' :
  settlements p (es ++ es') = settlements p es + settlements p es'.
Proof. apply sum_list_with_app. Qed.

(** The [reject] calls of [destroy]: one for each entry. *)
Lemma settlements_rejects (m : gmap nat settlers) (p : nat) :
  (forall id s, m !! id = Some s -> promise s = id) ->
  settlements p ((fun kv : nat * settlers => Reject (promise kv.2) DestroyedError)
                   <$> map_to_list m)
  = match m !! p with Some _ => 1 | None => 0 end.
Proof.
  unfold settlements.
  induction m as [|i s m Hi IH] using map_ind; intros Hkeys.
  - by rewrite map_to_list_empty, lookup_empty.
  - rewrite map_to_list_insert by done. rewrite fmap_cons.
    change (sum_list_with ?f (?x :: ?l)) with (f x + sum_list_with f l).
    cbn [settles snd].
    rewrite IH; last first.
    { intros id s' Hs'. apply Hkeys. rewrite lookup_insert_ne; [done|].
      intros ->. congruence. }
    rewrite (Hkeys i s) by apply lookup_insert_eq.
    destruct (decide (i = p)) as [->|Hne].
    + by rewrite bool_decide_eq_true_2, lookup_insert_eq, Hi.
    + by rewrite bool_decide_eq_false_2, lookup_insert_ne.
Qed.

Lemma run_snoc r (actions : list action) (a : action) :
  run r (actions ++ [a])
  = ((step (run r actions).1 a).1, (run r actions).2 ++ (step (run r actions).1 a).2).
Proof.
  unfold run. rewrite foldl_snoc. by destruct (step _ a).
Qed.

Lemma consistent_new : consistent new [].
Proof.
  split; [|split]; simpl.
  - intros id s Hs. by rewrite lookup_empty in Hs.
  - intros id Hid. lia.
  - done.
Qed.

Lemma consistent_request r es (post_ok : bool) :
  consistent r es ->
  consistent (getEarPowerData r post_ok).1 (es ++ (getEarPowerData r post_ok).2).
Proof.
  intros (Hpending & Hsettled & Hfresh).
  assert (pendingRequests r !! requestIdCounter r = None) as Hnone.
  { destruct (pendingRequests r !! requestIdCounter r) as [s|] eqn:Hs; [|done].
    apply Hpending in Hs. lia. }
  unfold getEarPowerData. destruct post_ok; simpl.
  - split; [|split]; simpl.
    + intros id s. rewrite settlements_app, Nat.add_0_r. simpl.
      destruct (decide (requestIdCounter r = id)) as [<-|Hne].
      * rewrite lookup_insert_eq. intros [= <-]. simpl.
        split; [done|]. split; [lia|]. by apply Hfresh.
      * rewrite lookup_insert_ne by done. intros Hs.
        destruct (Hpending _ _ Hs) as (? & ? & ?). split; [done|]. split; [lia|done].
    + intros id Hid. rewrite settlements_app, Nat.add_0_r.
      destruct (decide (requestIdCounter r = id)) as [<-|Hne].
      * by rewrite lookup_insert_eq.
      * rewrite lookup_insert_ne by done. apply Hsettled. lia.
    + intros id Hid. rewrite settlements_app, Nat.add_0_r. apply Hfresh. lia.
  - rewrite delete_insert_id by done.
    split; [|split]; simpl.
    + intros id s Hs. rewrite settlements_app. simpl.
      destruct (Hpending _ _ Hs) as (? & ? & ?). split; [done|]. split; [lia|].
      rewrite bool_decide_eq_false_2 by lia. lia.
    + intros id Hid Hs. rewrite settlements_app. simpl.
      destruct (decide (requestIdCounter r = id)) as [<-|Hne].
      * rewrite bool_decide_eq_true_2 by done. rewrite Hfresh by done. lia.
      * rewrite bool_decide_eq_false_2 by done. rewrite Hsettled; [lia|lia|done].
    + intros id Hid. rewrite settlements_app. simpl.
      rewrite bool_decide_eq_false_2 by lia. rewrite Hfresh; lia.
Qed.

Lemma consistent_message r es (data : JS.message_data) :
  consistent r es ->
  consistent (_handleWorkerMessage r data).1 (es ++ (_handleWorkerMessage r data).2).
Proof.
  intros (Hpending & Hsettled & Hfresh).
  unfold _handleWorkerMessage.
  destruct (bool_decide _); [|by rewrite app_nil_r].
  destruct (JS.requestId data) as [requestId|]; [|by rewrite app_nil_r].
  destruct (pendingRequests r !! requestId) as [s|] eqn:Hs; simpl.
  - destruct (Hpending _ _ Hs) as (Hp & Hlt & Hzero). rewrite Hp.
    split; [|split]; simpl.
    + intros id s'. rewrite settlements_app. simpl.
      destruct (decide (requestId = id)) as [<-|Hne].
      * by rewrite lookup_delete_eq.
      * rewrite lookup_delete_ne by done. intros Hs'.
        destruct (Hpending _ _ Hs') as (? & ? & ?).
        rewrite bool_decide_eq_false_2 by done. split; [done|]. split; [done|lia].
    + intros id Hid. rewrite settlements_app. simpl.
      destruct (decide (requestId = id)) as [<-|Hne].
      * intros _. rewrite bool_decide_eq_true_2 by done. lia.
      * rewrite lookup_delete_ne by done. intros Hnone.
        rewrite bool_decide_eq_false_2 by done. rewrite Hsettled; [lia|done..].
    + intros id Hid. rewrite settlements_app. simpl.
      rewrite bool_decide_eq_false_2 by lia. rewrite Hfresh; [lia|done].
  - split; [|split]; simpl.
    + intros id s Hs'. rewrite settlements_app, Nat.add_0_r. by apply Hpending.
    + intros id Hid Hnone. rewrite settlements_app, Nat.add_0_r. by apply Hsettled.
    + intros id Hid. rewrite settlements_app, Nat.add_0_r. by apply Hfresh.
Qed.

Lemma consistent_destroy r es :
  consistent r es -> consistent (destroy r).1 (es ++ (destroy r).2).
Proof.
  intros (Hpending & Hsettled & Hfresh).
  assert (forall id,
            settlements id (es ++ (destroy r).2)
            = settlements id es
              + match pendingRequests r !! id with Some _ => 1 | None => 0 end)
    as Hcount.
  { intros id. unfold destroy. simpl.
    rewrite !settlements_app, settlements_rejects; [simpl; lia|].
    intros id' s Hs. by apply Hpending in Hs as (? & _). }
  split; [|split]; simpl.
  - intros id s Hs. by rewrite lookup_empty in Hs.
  - intros id Hid _. rewrite Hcount.
    destruct (pendingRequests r !! id) as [s|] eqn:Hs.
    + apply Hpending in Hs as (_ & _ & ->). done.
    + rewrite Hsettled by done. lia.
  - intros id Hid. rewrite Hcount.
    destruct (pendingRequests r !! id) as [s|] eqn:Hs.
    + apply Hpending in Hs. lia.
    + rewrite Hfresh by done. lia.
Qed.

Lemma consistent_step r es (a : action) :
  consistent r es -> consistent (step r a).1 (es ++ (step r a).2).
Proof.
  intros Hr. destruct a as [post_ok|data|]; simpl.
  - by apply consistent_request.
  - destruct (listening r); [by apply consistent_message|by rewrite app_nil_r].
  - by apply consistent_destroy.
Qed.

Lemma consistent_run (actions : list action) :
  consistent (run new actions).1 (run new actions).2.
Proof.
  induction actions as [|a actions IH] using rev_ind; [apply consistent_new|].
  rewrite run_snoc. simpl. by apply consistent_step.
Qed.

Lemma settlements_elem (p : nat) (e : effect) es :
  e ∈ es -> settles p e = true -> 1 <= settlements p es.
Proof.
  intros Hin He.
  pose proof (sum_list_with_in e (fun e => if settles p e then 1 else 0) es Hin) as H.
  cbv beta in H. rewrite He in H. exact H.
Qed.

(** A promise both resolved and rejected in a run has been settled
    twice. *)
Lemma settlements_both (p : nat) (v : list JS.num) (e : error) es :
  Resolve p v ∈ es -> Reject p e ∈ es -> 2 <= settlements p es.
Proof.
  intros Hres Hrej.
  apply list_elem_of_split in Hres as (l1 & l2 & ->).
  rewrite settlements_app.
  change (settlements p (Resolve p v :: l2))
    with ((if settles p (Resolve p v) then 1 else 0) + settlements p l2).
  simpl settles. rewrite bool_decide_eq_true_2 by done.
  apply elem_of_app in Hrej as [Hrej|Hrej].
  - pose proof (settlements_elem p _ _ Hrej) as H. simpl in H.
    rewrite bool_decide_eq_true_2 in H by done. specialize (H eq_refl). lia.
  - apply elem_of_cons in Hrej as [Hrej|Hrej]; [discriminate Hrej|].
    pose proof (settlements_elem p _ _ Hrej) as H. simpl in H.
    rewrite bool_decide_eq_true_2 in H by done. specialize (H eq_refl). lia.
Qed.

(** C7.  In every run of the requester, made of [getEarPowerData] calls
    whose post succeeds or throws, of message events and of [destroy]
    calls: no promise is settled more than once, be it by [resolve] or
    by [reject], and none is both resolved and rejected; a request that
    was issued is either still pending and not settled, or no longer
    pending and settled exactly once; a [data] message whose id has a
    pending request removes the request and calls [resolve], once, on the
    promise of that request with the floats of its buffer; a [data]
    message whose id has no pending request is answered by a warning
    and nothing else, the requester staying as it is; and [destroy]
    empties the pending map and calls [reject], with the error of
    destruction, for every request that was pending and for no other,
    after which every request issued so far is settled exactly once. *)
Theorem requests_settled_once (actions : list action) :
  let r := (run new actions).1 in
  let es := (run new actions).2 in
  (forall id, settlements id es <= 1) /\
  (forall id v e, Resolve id v ∈ es -> Reject id e ∈ es -> False) /\
  (forall id, id < requestIdCounter r ->
     (is_Some (pendingRequests r !! id) /\ settlements id es = 0) \/
     (pendingRequests r !! id = None /\ settlements id es = 1)) /\
  (forall (data : JS.message_data) (id : nat),
     JS.message data = Some "data"%string ->
     JS.requestId data = Some id ->
     is_Some (pendingRequests r !! id) ->
     _handleWorkerMessage r data
     = ({| pendingRequests := delete id (pendingRequests r);
           requestIdCounter := requestIdCounter r;
           listening := listening r |},
        [Resolve id (JS.new_Float32Array (JS.buffer data))])) /\
  (forall (data : JS.message_data) (id : nat),
     JS.message data = Some "data"%string ->
     JS.requestId data = Some id ->
     pendingRequests r !! id = None ->
     _handleWorkerMessage r data = (r, [ConsoleWarn id])) /\
  pendingRequests (destroy r).1 = ∅ /\
  (forall id, is_Some (pendingRequests r !! id) ->
     Reject id DestroyedError ∈ (destroy r).2) /\
  (forall id e, Reject id e ∈ (destroy r).2 ->
     is_Some (pendingRequests r !! id) /\ e = DestroyedError) /\
  (forall e, e ∈ (destroy r).2 -> e = ConsoleLog \/ exists id, e = Reject id DestroyedError) /\
  (forall id, id < requestIdCounter r ->
     settlements id (es ++ (destroy r).2) = 1).
Proof.
  intros r es.
  pose proof (consistent_run actions) as Hrun. fold r es in Hrun.
  pose proof (consistent_destroy r es Hrun) as (_ & Hdestroyed & _).
  destruct Hrun as (Hpending & Hsettled & Hfresh).
  assert (forall id, settlements id es <= 1) as Honce.
  { intros id. destruct (decide (id < requestIdCounter r)) as [Hid|Hid].
    - destruct (pendingRequests r !! id) as [s|] eqn:Hs.
      + apply Hpending in Hs as (_ & _ & ->). lia.
      + rewrite Hsettled by done. lia.
    - rewrite Hfresh by lia. lia. }
  assert (forall e, e ∈ (destroy r).2 ->
            e = ConsoleLog \/
            exists id s, pendingRequests r !! id = Some s /\
                         e = Reject id DestroyedError) as Hdestroy.
  { intros e He. unfold destroy in He. simpl in He.
    apply elem_of_app in He as [He|He].
    - right. apply list_elem_of_fmap in He as ([id s] & -> & Hin).
      apply elem_of_map_to_list in Hin. exists id, s. split; [done|].
      simpl. by apply Hpending in Hin as (-> & _).
    - left. by apply list_elem_of_singleton in He. }
  split; [done|].
  split; [|split; [|split; [|split; [|split; [|split; [|split; [|split]]]]]]].
  - intros id v e Hres Hrej.
    pose proof (settlements_both id v e es Hres Hrej).
    pose proof (Honce id). lia.
  - intros id Hid. destruct (pendingRequests r !! id) as [s|] eqn:Hs.
    + left. split; [by eexists|]. by apply Hpending in Hs as (_ & _ & ->).
    + right. split; [done|]. by apply Hsettled.
  - intros data id Hmsg Hid [s Hs]. unfold _handleWorkerMessage.
    rewrite Hmsg, Hid, Hs. simpl.
    by apply Hpending in Hs as (-> & _).
  - intros data id Hmsg Hid Hnone. unfold _handleWorkerMessage.
    by rewrite Hmsg, Hid, Hnone.
  - done.
  - intros id [s Hs]. unfold destroy. simpl.
    apply elem_of_app. left. apply list_elem_of_fmap.
    exists (id, s). split.
    + simpl. by apply Hpending in Hs as (-> & _).
    + by apply elem_of_map_to_list.
  - intros id e He. apply Hdestroy in He as [He|(id' & s & Hs & He)];
      [discriminate He|].
    injection He as -> ->. split; [by eexists|done].
  - intros e He. apply Hdestroy in He as [He|(id & s & _ & He)]; [by left|].
    right. by exists id.
  - intros id Hid. apply Hdestroyed; [done|]. apply lookup_empty.
Qed.

Lemma requests_settled_once_witness :
  let r := (run new [Request true; Request true]).1 in
  let es := (run new [Request true; Request true]).2 in
  _handleWorkerMessage r
    {| JS.type := None; JS.message := Some "data"%string;
       JS.buffer := Some (JS.ArrayBuffer [JS.Num 1; JS.Num 2]);
       JS.requestId := Some 0 |}
  = ({| pendingRequests := delete 0 (pendingRequests r);
        requestIdCounter := requestIdCounter r;
        listening := listening r |},
     [Resolve 0 [JS.Num 1; JS.Num 2]]) /\
  _handleWorkerMessage r
    {| JS.type := None; JS.message := Some "data"%string;
       JS.buffer := None; JS.requestId := Some 5 |}
  = (r, [ConsoleWarn 5]) /\
  Reject 1 DestroyedError ∈ (destroy r).2 /\
  settlements 0 (es ++ (destroy r).2) = 1.
Proof.
  pose proof (requests_settled_once [Request true; Request true])
    as (_ & _ & _ & Hknown & Hunknown & _ & Hrejects & _ & _ & Hsettled).
  split; [|split; [|split]].
  - apply (Hknown
             {| JS.type := None; JS.message := Some "data"%string;
                JS.buffer := Some (JS.ArrayBuffer [JS.Num 1; JS.Num 2]);
                JS.requestId := Some 0 |} 0); [reflexivity..|].
    vm_compute. by eexists.
  - apply Hunknown; reflexivity.
  - apply Hrejects. vm_compute. by eexists.
  - apply Hsettled. vm_compute. lia.
Defined.

(** A reply in a run: the request is issued, its reply is delivered, a
    second request fails to post, and the requester is destroyed; promise
    0 is resolved and promise 1 rejected, each once. *)
Lemma reply_then_destroy_example :
  let reply := {| JS.type := None; JS.message := Some "data"%string;
                  JS.buffer := Some (JS.ArrayBuffer [JS.Num 1; JS.Num 2]);
                  JS.requestId := Some 0 |} in
  (run new [Request true; Deliver reply; Request false; Destroy]).2
  = [PostMessage {| JS.type := None; JS.message := Some "get-data"%string;
                    JS.buffer := Some (JS.ArrayBuffer (replicate 88 (JS.Num 0)));
                    JS.requestId := Some 0 |};
     Resolve 0 [JS.Num 1; JS.Num 2];
     Reject 1 PostMessageError;
     ConsoleLog].
Proof. reflexivity. Qed.

End Requester.

Section Transport.

(** C4, where the code departs from it.  When [postMessage] throws,
    [getEarPowerData] deletes the entry of the request and calls
    [reject] with the error; [_getOscData] catches the error in an empty
    block: the entry stays in [pendingRequests] and neither [resolve]
    nor [reject] is called. *)
Theorem failed_post_is_swallowed_by_getOscData :
  (forall r : EarDataRequester.t,
     EarDataRequester.pendingRequests (EarDataRequester.getEarPowerData r false).1
       !! EarDataRequester.requestIdCounter r = None /\
     (EarDataRequester.getEarPowerData r false).2
     = [Reject (EarDataRequester.requestIdCounter r) PostMessageError])
  /\
  (forall r : OscRender.t,
     OscRender.pendingRequests (OscRender._getOscData r false).1
       !! OscRender.requestIdCounter r
     = Some {| promise := OscRender.requestIdCounter r |} /\
     (OscRender._getOscData r false).2 = []).
Proof.
  split; intros r; (split; [|done]); simpl.
  - apply lookup_delete_eq.
  - apply lookup_insert_eq.
Qed.

End Transport.

(** * Further properties *)

(** ** The ring buffer, beyond the round trip *)

Section RingBufferMore.

Import RotatingAudioBuffer RingBufferRuns RingBufferState.

(** X1.  Writing block after block leaves the buffer as writing all the
    samples in one call does. *)
Theorem write_block_by_block (rb : t) (blocks : list (list JS.num)) :
  write_all rb blocks = write rb (JS.VArr (concat blocks)).
Proof.
  unfold write_all. revert rb.
  induction blocks as [|block blocks IH]; intros rb; [done|].
  simpl. rewrite IH, !write_array. by rewrite foldl_app.
Qed.

Lemma write_step_in_range (rb : t) (w : nat) (x : JS.num) :
  Datatypes.length (buffer rb) = length rb ->
  writeIndex rb = Some (Z.of_nat w) -> w < length rb ->
  length (write_step rb x) = length rb /\
  Datatypes.length (buffer (write_step rb x)) = length rb /\
  writeIndex (write_step rb x) = Some (Z.of_nat (S w mod length rb)).
Proof.
  intros Hbuf Hw Hlt. unfold write_step. simpl.
  rewrite Hw, length_set, next_index by lia. done.
Qed.

(** X2.  On a buffer whose cursor is on one of its slots, [write] of a
    typed array keeps the number of slots and moves the cursor forward by
    the number of samples, modulo the capacity: the cursor never leaves
    the buffer. *)
Theorem write_moves_cursor (rb : t) (w : nat) (data : list JS.num) :
  Datatypes.length (buffer rb) = length rb ->
  writeIndex rb = Some (Z.of_nat w) -> w < length rb ->
  let rb' := write rb (JS.VArr data) in
  length rb' = length rb /\
  Datatypes.length (buffer rb') = length rb /\
  writeIndex rb' = Some (Z.of_nat ((w + Datatypes.length data) mod length rb)) /\
  in_range rb'.
Proof.
  intros Hbuf Hw Hlt rb'. unfold rb'. rewrite write_array. clear rb'.
  assert (length (foldl write_step rb data) = length rb /\
          Datatypes.length (buffer (foldl write_step rb data)) = length rb /\
          writeIndex (foldl write_step rb data)
          = Some (Z.of_nat ((w + Datatypes.length data) mod length rb))) as H.
  { induction data as [|x data IH] using rev_ind.
    - simpl. by rewrite Nat.add_0_r, Nat.mod_small.
    - destruct IH as (Hl & Hb & Hi).
      rewrite foldl_snoc, length_app. change (Datatypes.length [x]) with 1.
      destruct (write_step_in_range (foldl write_step rb data)
                  ((w + Datatypes.length data) mod length rb) x)
        as (Hl' & Hb' & Hi');
        [by rewrite Hb, Hl | exact Hi | rewrite Hl; apply Nat.mod_upper_bound; lia |].
      rewrite Hl', Hb', Hi', Hl. split; [done|]. split; [done|].
      do 2 f_equal.
      replace (S ((w + Datatypes.length data) mod length rb))
        with ((w + Datatypes.length data) mod length rb + 1) by lia.
      rewrite Nat.Div0.add_mod_idemp_l. f_equal. lia. }
  destruct H as (Hl & Hb & Hi). split; [done|]. split; [done|]. split; [done|].
  split; [by rewrite Hb, Hl|]. eexists. split; [exact Hi|].
  rewrite Hl. apply Nat.mod_upper_bound. lia.
Qed.

Lemma write_moves_cursor_witness :
  writeIndex (write (new 4) (JS.VArr [JS.Num 1; JS.Num 2; JS.Num 3; JS.Num 4; JS.Num 5]))
  = Some 1%Z.
Proof.
  apply (write_moves_cursor (new 4) 0
           [JS.Num 1; JS.Num 2; JS.Num 3; JS.Num 4; JS.Num 5]);
    [reflexivity | reflexivity | simpl; lia].
Defined.

(** X3.  [read] into a target no longer than the capacity delivers the
    most recent samples, oldest first: the tail of that length of the
    capacity's worth of zeros followed by everything written, and so the
    tail of what was written once that many samples have been written. *)
Theorem read_most_recent
    (capacity : nat) (blocks : list (list JS.num)) (target : list JS.num) :
  Datatypes.length target <= capacity ->
  let written := concat blocks in
  let rb := write_all (new capacity) blocks in
  (read rb target).2
  = drop (Datatypes.length written + capacity - Datatypes.length target)
         (replicate capacity (JS.Num 0) ++ written) /\
  (Datatypes.length target <= Datatypes.length written ->
   (read rb target).2
   = drop (Datatypes.length written - Datatypes.length target) written).
Proof.
  intros HL written rb.
  assert ((read rb target).2
          = drop (Datatypes.length written + capacity - Datatypes.length target)
                 (replicate capacity (JS.Num 0) ++ written)) as Hread.
  { destruct (decide (capacity = 0)) as [->|Hc].
    - destruct target; [|simpl in HL; lia]. simpl.
      by rewrite Nat.add_0_r, Nat.sub_0_r, drop_all.
    - apply read_recent; [lia| |done]. apply holds_write_all. lia. }
  split; [done|]. intros HN. rewrite Hread.
  rewrite drop_app_ge; rewrite length_replicate; [|lia]. f_equal. lia.
Qed.

Lemma read_most_recent_witness :
  (read (write_all (new 4) [[JS.Num 1; JS.Num 2]; [JS.Num 3; JS.Num 4; JS.Num 5]])
        [JS.NaN; JS.NaN; JS.NaN]).2
  = [JS.Num 3; JS.Num 4; JS.Num 5]
  /\
  (read (write_all (new 4) [[JS.Num 1]]) [JS.NaN; JS.NaN; JS.NaN]).2
  = [JS.Num 0; JS.Num 0; JS.Num 1].
Proof.
  split.
  - apply (proj2 (read_most_recent 4 [[JS.Num 1; JS.Num 2]; [JS.Num 3; JS.Num 4; JS.Num 5]]
                    [JS.NaN; JS.NaN; JS.NaN] ltac:(simpl; lia))).
    simpl. lia.
  - apply (proj1 (read_most_recent 4 [[JS.Num 1]]
                    [JS.NaN; JS.NaN; JS.NaN] ltac:(simpl; lia))).
Defined.

(** The loop of [read] from any cursor: round [i] stores what the buffer
    has at the cursor after [i] advances. *)
Lemma read_loop_from (rb : t) (target : list JS.num) (r : JS.index) (k : nat) :
  k <= Datatypes.length target ->
  foldl (read_step rb) (target, r) (seq 0 k)
  = (((fun i => JS.get (buffer rb) (Nat.iter i (next rb) r)) <$> seq 0 k)
       ++ drop k target,
     Nat.iter k (next rb) r).
Proof.
  induction k as [|k IH]; intros Hk; [done|].
  rewrite seq_S, foldl_snoc, IH by lia. unfold read_step. simpl fst; simpl snd.
  rewrite set_at. f_equal.
  rewrite fmap_app. simpl. rewrite <- app_assoc. simpl.
  rewrite insert_app_r_alt; rewrite length_fmap, length_seq; [|lia].
  rewrite Nat.sub_diag.
  destruct (lookup_lt_is_Some_2 target k ltac:(lia)) as [y Hy].
  by rewrite (drop_S _ _ _ Hy).
Qed.

Lemma next_negative (rb : t) (z : Z) (i : nat) :
  (- Z.of_nat (length rb) < z)%Z -> (z + Z.of_nat i <= 0)%Z ->
  Nat.iter i (next rb) (Some z) = Some (z + Z.of_nat i)%Z.
Proof.
  intros Hz. induction i as [|i IH]; intros Hi.
  - simpl. f_equal. lia.
  - simpl. rewrite IH by lia. unfold next, JS.rem. simpl.
    destruct (decide _) as [|_]; [lia|]. f_equal.
    replace (z + Z.of_nat i + 1)%Z with (- (- (z + Z.of_nat (S i))))%Z by lia.
    rewrite Z.rem_opp_l', Z.rem_small by lia. lia.
Qed.

(** X4.  [read] into a target too long for the buffer does not fail: when
    the target has [k] slots more than the capacity plus the cursor (and
    [k] is less than the capacity), the read cursor starts at [-k], below
    the buffer, and the first [k] slots of the target receive [NaN]. *)
Theorem read_past_capacity (rb : t) (w k : nat) (target : list JS.num) :
  writeIndex rb = Some (Z.of_nat w) ->
  0 < k < length rb ->
  Datatypes.length target = length rb + w + k ->
  forall i, i < k -> (read rb target).2 !! i = Some JS.NaN.
Proof.
  intros Hw Hk HL i Hi. unfold read. simpl snd.
  rewrite Hw. simpl JS.plus. unfold JS.rem.
  destruct (decide _) as [|_]; [lia|].
  replace (Z.of_nat w + - Z.of_nat (Datatypes.length target) + Z.of_nat (length rb))%Z
    with (- Z.of_nat k)%Z by lia.
  rewrite Z.rem_opp_l', Z.rem_small by lia.
  rewrite read_loop_from by done. simpl fst.
  rewrite drop_all, app_nil_r, list_lookup_fmap, lookup_seq_lt by lia.
  simpl. rewrite next_negative by lia.
  unfold JS.get. by destruct (decide _); [lia|].
Qed.

Lemma read_past_capacity_witness :
  (read (new 4) [JS.Num 9; JS.Num 9; JS.Num 9; JS.Num 9; JS.Num 9; JS.Num 9]).2 !! 1
  = Some JS.NaN.
Proof.
  apply (read_past_capacity (new 4) 0 2
           [JS.Num 9; JS.Num 9; JS.Num 9; JS.Num 9; JS.Num 9; JS.Num 9]);
    [reflexivity | simpl; lia | reflexivity | lia].
Defined.

End RingBufferMore.

(** ** The oscilloscope, end to end *)

Section OscilloscopeRuns.

Lemma handleMessage_worker (w : OscWorker.t) (data : JS.message_data) :
  (OscWorker.handleMessage w data).1 = w.
Proof.
  unfold OscWorker.handleMessage.
  destruct (bool_decide _); [|done].
  destruct (JS.has_positive_length _); [|done]. by destruct w.
Qed.

Lemma length_read (rb : RotatingAudioBuffer.t) (target : list JS.num) :
  length (RotatingAudioBuffer.read rb target).2 = length target.
Proof.
  unfold RotatingAudioBuffer.read. simpl snd.
  rewrite read_loop_from by done. simpl fst.
  by rewrite drop_all, app_nil_r, length_fmap, length_seq.
Qed.

(** What a fresh ring buffer gives a target that fits in it: zeros. *)
Lemma read_new (capacity : nat) (target : list JS.num) :
  length target <= capacity ->
  (RotatingAudioBuffer.read (RotatingAudioBuffer.new capacity) target).2
  = replicate (length target) (JS.Num 0).
Proof.
  intros HL. destruct (decide (capacity = 0)) as [->|Hc].
  - by destruct target; [|simpl in HL; lia].
  - rewrite (read_recent capacity []); [|lia|apply holds_new; lia|done].
    rewrite app_nil_r, drop_replicate. f_equal. simpl. lia.
Qed.

Lemma handleMessage_new (sampleRate : nat) (data : JS.message_data) :
  Forall (fun reply =>
            exists floats,
              JS.buffer reply = Some (JS.ArrayBuffer floats) /\
              (length floats <= sampleRate ->
               floats = replicate (length floats) (JS.Num 0)))
         (OscWorker.handleMessage (OscWorker.new sampleRate) data).2.
Proof.
  unfold OscWorker.handleMessage.
  destruct (bool_decide _); [|by constructor].
  destruct (JS.has_positive_length _); [|by constructor].
  destruct (RotatingAudioBuffer.read _ _) as [rb filled] eqn:Hread.
  constructor; [|constructor]. simpl. exists filled. split; [done|].
  replace filled
    with (RotatingAudioBuffer.read (RotatingAudioBuffer.new sampleRate)
            (JS.new_Float32Array (JS.buffer data))).2
    by (simpl in Hread; by rewrite Hread).
  rewrite length_read. intros HL. by apply read_new.
Qed.

(** X5.  A worker that has only run [process] calls and message events
    since it was built is still the worker that was built, its ring buffer
    all zeros; so every reply it has posted whose buffer fits in the ring
    buffer holds only zeros. *)
Theorem worker_only_posts_zeros
    (sampleRate : nat) (actions : list OscWorkerRuns.action)
    (w : OscWorker.t) (posted : list JS.message_data) :
  OscWorkerRuns.run (OscWorker.new sampleRate) actions = Some (w, posted) ->
  w = OscWorker.new sampleRate /\
  Forall (fun reply =>
            exists floats,
              JS.buffer reply = Some (JS.ArrayBuffer floats) /\
              (length floats <= sampleRate ->
               floats = replicate (length floats) (JS.Num 0)))
         posted.
Proof.
  unfold OscWorkerRuns.run. revert w posted.
  induction actions as [|a actions IH] using rev_ind; intros w posted.
  - intros [= <- <-]. split; [done|constructor].
  - rewrite foldl_snoc.
    destruct (foldl _ _ actions) as [[w0 posted0]|]; [|done].
    destruct (IH w0 posted0 eq_refl) as [-> Hposted0].
    destruct a as [inputs|data]; simpl.
    + rewrite OscWorker_process_unchanged.
      destruct inputs; [done|]. intros [= <- <-].
      by rewrite app_nil_r.
    + pose proof (handleMessage_worker (OscWorker.new sampleRate) data) as Hw.
      pose proof (handleMessage_new sampleRate data) as Hreplies.
      destruct (OscWorker.handleMessage _ data) as [w1 replies].
      simpl in Hw, Hreplies. intros [= <- <-].
      split; [done|]. by apply Forall_app.
Qed.

Lemma worker_only_posts_zeros_witness :
  let actions :=
    [OscWorkerRuns.Process [[[JS.Num 1; JS.Num 2]]];
     OscWorkerRuns.Message
       {| JS.type := Some "dump"%string; JS.message := None;
          JS.buffer := Some (JS.Float32Array [JS.Num 7; JS.Num 7]);
          JS.requestId := None |}] in
  let posted :=
    [ {| JS.type := Some "dumped"%string; JS.message := None;
         JS.buffer := Some (JS.ArrayBuffer [JS.Num 0; JS.Num 0]);
         JS.requestId := None |} ] in
  OscWorkerRuns.run (OscWorker.new 4) actions = Some (OscWorker.new 4, posted) /\
  Forall (fun reply =>
            exists floats,
              JS.buffer reply = Some (JS.ArrayBuffer floats) /\
              (length floats <= 4 ->
               floats = replicate (length floats) (JS.Num 0)))
         posted.
Proof.
  intros actions posted. split; [reflexivity|].
  apply (proj2 (worker_only_posts_zeros 4 actions (OscWorker.new 4) posted eq_refl)).
Defined.

Import OscRenderRuns RequesterRuns.

Lemma OscRender_run_snoc (r : OscRender.t) (actions : list action) (a : action) :
  run r (actions ++ [a])
  = ((step (run r actions).1 a).1, (run r actions).2 ++ (step (run r actions).1 a).2).
Proof. unfold run. rewrite foldl_snoc. by destruct (step _ a). Qed.

(** X6.  The request side of [OscRender] against the worker it talks to:
    whatever the order of [_getOscData] calls (their post returning or
    throwing) and of messages from an [OscWorker], no promise is ever
    resolved or rejected, and every request issued so far is still in
    [pendingRequests]. *)
Theorem oscilloscope_requests_stay_pending (actions : list action) :
  (forall data, Deliver data ∈ actions -> from_worker data) ->
  let r := (run OscRender._setup actions).1 in
  let es := (run OscRender._setup actions).2 in
  (forall id, settlements id es = 0) /\
  (forall id, id < OscRender.requestIdCounter r ->
     OscRender.pendingRequests r !! id = Some {| promise := id |}).
Proof.
  induction actions as [|a actions IH] using rev_ind; intros Hfrom.
  - split; [done|]. simpl. lia.
  - rewrite OscRender_run_snoc. simpl.
    destruct IH as [Hnone Hpending].
    { intros data Hin. apply Hfrom, elem_of_app. by left. }
    set (r := (run OscRender._setup actions).1) in *.
    set (es := (run OscRender._setup actions).2) in *.
    destruct a as [post_ok|data]; simpl.
    + assert (forall id, id < S (OscRender.requestIdCounter r) ->
                <[OscRender.requestIdCounter r :=
                    {| promise := OscRender.requestIdCounter r |}]>
                  (OscRender.pendingRequests r) !! id
                = Some {| promise := id |}) as Hins.
      { intros id Hid.
        destruct (decide (OscRender.requestIdCounter r = id)) as [<-|Hne].
        - apply lookup_insert_eq.
        - rewrite lookup_insert_ne by done. apply Hpending. lia. }
      unfold OscRender._getOscData. destruct post_ok; simpl.
      * split; [intros id; by rewrite settlements_app, Hnone|].
        intros id Hid. by rewrite insert_insert_eq, Hins.
      * split; [intros id; by rewrite app_nil_r|]. done.
    + destruct (Hfrom data) as (w & m & Hin).
      { apply elem_of_app. right. by left. }
      pose proof (handleMessage_replies w m) as Hreplies.
      rewrite Forall_forall in Hreplies.
      destruct (Hreplies data Hin) as [_ Hmsg].
      unfold OscRender._handleWorkerMessage. rewrite Hmsg. simpl.
      by rewrite app_nil_r.
Qed.

Lemma oscilloscope_requests_stay_pending_witness :
  OscRender.pendingRequests
    (run OscRender._setup
       [GetOscData true; GetOscData false;
        Deliver {| JS.type := Some "dumped"%string; JS.message := None;
                   JS.buffer := Some (JS.ArrayBuffer [JS.Num 0]);
                   JS.requestId := None |}]).1 !! 1
  = Some {| promise := 1 |}.
Proof.
  apply (oscilloscope_requests_stay_pending
           [GetOscData true; GetOscData false;
            Deliver {| JS.type := Some "dumped"%string; JS.message := None;
                       JS.buffer := Some (JS.ArrayBuffer [JS.Num 0]);
                       JS.requestId := None |}]).
  - intros data Hin.
    apply elem_of_cons in Hin as [Hin|Hin]; [discriminate Hin|].
    apply elem_of_cons in Hin as [Hin|Hin]; [discriminate Hin|].
    apply list_elem_of_singleton in Hin. injection Hin as ->.
    exists (OscWorker.new 1),
      {| JS.type := Some "dump"%string; JS.message := None;
         JS.buffer := Some (JS.Float32Array [JS.Num 5]); JS.requestId := None |}.
    vm_compute. by left.
  - vm_compute. lia.
Defined.

End OscilloscopeRuns.

(** ** The biquad coefficients *)

Section Coefficients.

Import IIRBandBoostFilter.
Local Open Scope R_scope.

(** In range, the constructor takes the last branch: with [beta] for
    [alpha / A] and [c] for [cos w0], the denominator [1 + beta] is above
    1 and [c] is strictly between -1 and 1. *)
Lemma new_in_range (midiNoteNumber sampleRate peakGainDB : R) :
  center_frequency midiNoteNumber < sampleRate / 2 ->
  exists alpha A c : R,
    0 < alpha /\ 0 < A /\ -1 < c < 1 /\
    let f := new midiNoteNumber sampleRate peakGainDB in
    b0 f = (1 + alpha * A) / (1 + alpha / A) /\
    b1 f = -2 * c / (1 + alpha / A) /\
    b2 f = (1 - alpha * A) / (1 + alpha / A) /\
    a1 f = -2 * c / (1 + alpha / A) /\
    a2 f = (1 - alpha / A) / (1 + alpha / A).
Proof.
  intros Hf. pose proof (center_frequency_pos midiNoteNumber) as Hpos.
  set (w0 := 2 * PI * center_frequency midiNoteNumber / sampleRate).
  set (ratio := JS.Math_pow 2 (25 / 1200)).
  set (Q := 1 / (ratio - 1 / ratio)).
  set (A := JS.Math_pow 10 (peakGainDB / 20)).
  assert (0 < w0 < PI) as Hw0.
  { pose proof PI_RGT_0. unfold w0. split.
    - apply Rdiv_lt_0_compat; [|lra]. apply Rmult_lt_0_compat; lra.
    - apply Rmult_lt_reg_r with sampleRate; [lra|].
      unfold Rdiv at 1. rewrite Rmult_assoc, Rinv_l by lra. nra. }
  assert (0 < sin w0) as Hsin by (apply sin_gt_0; lra).
  assert (-1 < cos w0 < 1) as Hcos.
  { pose proof (sin2_cos2 w0) as H. unfold Rsqr in H. split; nra. }
  assert (1 < ratio) as Hratio.
  { unfold ratio, JS.Math_pow. rewrite <- (Rpower_O 2) by lra.
    apply Rpower_lt; lra. }
  assert (0 < Q) as HQ.
  { unfold Q. apply Rdiv_lt_0_compat; [lra|].
    assert (1 / ratio < 1); [|lra].
    apply Rmult_lt_reg_r with ratio; [lra|].
    unfold Rdiv. rewrite Rmult_assoc, Rinv_l by lra. lra. }
  assert (0 < A) as HA by apply exp_pos.
  assert (0 < sin w0 / (2 * Q)) as Halpha by (apply Rdiv_lt_0_compat; lra).
  assert (0 < sin w0 / (2 * Q) / A) as Hbeta by (by apply Rdiv_lt_0_compat).
  exists (sin w0 / (2 * Q)), A, (cos w0).
  split; [done|]. split; [done|]. split; [done|].
  unfold new. fold w0 ratio Q A.
  destruct (Rle_dec _ _); [lra|].
  destruct (Rge_dec _ _); [lra|].
  destruct (Req_dec_T _ _) as [Hzero|_]; [lra|]. done.
Qed.

(** X7.  For a note below half the sample rate the filter is stable: its
    feedback coefficients satisfy [|a2| < 1] and [|a1| < 1 + a2], which
    puts both poles strictly inside the unit circle. *)
Theorem in_range_filter_is_stable (midiNoteNumber sampleRate peakGainDB : R) :
  center_frequency midiNoteNumber < sampleRate / 2 ->
  let f := new midiNoteNumber sampleRate peakGainDB in
  Rabs (a2 f) < 1 /\ Rabs (a1 f) < 1 + a2 f.
Proof.
  intros Hf f.
  destruct (new_in_range _ _ peakGainDB Hf)
    as (alpha & A & c & Halpha & HA & Hc & _ & _ & _ & Ha1 & Ha2).
  fold f in Ha1, Ha2. rewrite Ha1, Ha2.
  assert (0 < alpha / A) as Hbeta by (by apply Rdiv_lt_0_compat).
  set (beta := alpha / A) in *.
  assert (0 < / (1 + beta)) as Hinv by (apply Rinv_0_lt_compat; lra).
  assert ((1 - beta) / (1 + beta) = 2 * / (1 + beta) - 1) as -> by (field; lra).
  assert ((1 + beta) * / (1 + beta) = 1) as Hone by (field; lra).
  split.
  - apply Rabs_def1; nra.
  - unfold Rdiv. apply Rabs_def1; nra.
Qed.

Lemma in_range_filter_is_stable_witness :
  Rabs (a2 (new 69 44100 6)) < 1 /\ Rabs (a1 (new 69 44100 6)) < 1 + a2 (new 69 44100 6).
Proof.
  apply (in_range_filter_is_stable 69 44100 6).
  rewrite center_frequency_69. lra.
Defined.

(** X8.  Whatever the note, the sample rate and the gain, the coefficients
    give the filter unit gain at frequency zero and at half the sample
    rate, and [b1] equals [a1]; so a constant signal that the filter has
    settled on passes unchanged and leaves the filter as it is. *)
Theorem filter_passes_constant (midiNoteNumber sampleRate peakGainDB : R) :
  let f := new midiNoteNumber sampleRate peakGainDB in
  b0 f + b1 f + b2 f = 1 + a1 f + a2 f /\
  b0 f - b1 f + b2 f = 1 - a1 f + a2 f /\
  b1 f = a1 f /\
  forall c : R,
    let settled :=
      {| Fs := Fs f; f0 := f0 f; peakGainDB := IIRBandBoostFilter.peakGainDB f;
         b0 := b0 f; b1 := b1 f; b2 := b2 f; a1 := a1 f; a2 := a2 f;
         x1 := JS.Num c; x2 := JS.Num c; y1 := JS.Num c; y2 := JS.Num c |} in
    process settled (JS.Num c) = (settled, JS.Num c).
Proof.
  intros f.
  assert (b0 f + b1 f + b2 f = 1 + a1 f + a2 f /\
          b0 f - b1 f + b2 f = 1 - a1 f + a2 f /\ b1 f = a1 f) as (Hdc & Hny & Hb1).
  { unfold f, new.
    destruct (Rle_dec _ _); [simpl; lra|].
    destruct (Rge_dec _ _); [simpl; lra|].
    destruct (Req_dec_T _ _) as [|Hden]; [simpl; lra|].
    simpl.
    set (alpha := sin _ / _) in *. set (A := JS.Math_pow 10 _) in *.
    set (beta := alpha / A) in *. set (c := cos _) in *.
    repeat split; field; exact Hden. }
  split; [done|]. split; [done|]. split; [done|].
  intros c settled. unfold process, settled. simpl.
  assert (b0 f * c + b1 f * c + b2 f * c - a1 f * c - a2 f * c = c) as -> by nra.
  done.
Qed.

End Coefficients.

(** ** The delay line and the power estimate *)

Section Estimator.

Import DelayedIIRBandBoostFilterPair EstimatorState RingBufferRuns.
Local Open Scope R_scope.

Local Abbreviation center_frequency := IIRBandBoostFilter.center_frequency.

Lemma feed_snoc (p : t) (samples : list JS.num) (x : JS.num) :
  feed p (samples ++ [x]) = (process (feed p samples) x).1.
Proof. unfold feed. by rewrite foldl_snoc. Qed.

Lemma filter_feed_snoc (f : IIRBandBoostFilter.t) (samples : list JS.num) (x : JS.num) :
  IIRBandBoostFilter.feed f (samples ++ [x])
  = (IIRBandBoostFilter.process (IIRBandBoostFilter.feed f samples) x).1.
Proof. unfold IIRBandBoostFilter.feed. by rewrite foldl_snoc. Qed.

(** One [process] call does to the delay line what one round of
    [RotatingAudioBuffer.write] does to a ring buffer. *)
Lemma ring_of_process (p : t) (x : JS.num) :
  ring_of (process p x).1 = RotatingAudioBuffer.write_step (ring_of p) x.
Proof.
  unfold ring_of, RotatingAudioBuffer.write_step, process. simpl.
  by rewrite length_set.
Qed.

Lemma filter1_process (p : t) (x : JS.num) :
  filter1 (process p x).1 = (IIRBandBoostFilter.process (filter1 p) x).1.
Proof. done. Qed.

Lemma filter2_process (p : t) (x : JS.num) :
  filter2 (process p x).1
  = (IIRBandBoostFilter.process (filter2 p)
       (JS.get (delayBuffer p) (delayIndex p))).1.
Proof. done. Qed.

(** X9.  The delay line delays: in a pair built with a delay buffer of
    [d >= 1] slots, after any stream of samples the first filter has been
    fed the stream itself, and the second filter the same stream [d]
    samples late, [d] zeros first. *)
Theorem second_filter_hears_delayed_input
    (midiNoteNumber sampleRate peakGainDB : R) (p : t) (samples : list JS.num) :
  new midiNoteNumber sampleRate peakGainDB = Some p ->
  (1 <= length (delayBuffer p))%nat ->
  let d := length (delayBuffer p) in
  filter1 (feed p samples) = IIRBandBoostFilter.feed (filter1 p) samples /\
  filter2 (feed p samples)
  = IIRBandBoostFilter.feed (filter2 p)
      (take (length samples) (replicate d (JS.Num 0) ++ samples)).
Proof.
  intros Hp Hd d.
  destruct (new_Some _ _ _ _ Hp) as (_ & Hbuf & Hidx & _).
  assert (holds d samples (ring_of (feed p samples)) /\
          filter1 (feed p samples) = IIRBandBoostFilter.feed (filter1 p) samples /\
          filter2 (feed p samples)
          = IIRBandBoostFilter.feed (filter2 p)
              (take (length samples) (replicate d (JS.Num 0) ++ samples))) as H;
    [|tauto].
  induction samples as [|x samples IH] using rev_ind.
  - split; [|done].
    assert (d = Z.to_nat (delayInSamples midiNoteNumber sampleRate)) as Hdn
      by (unfold d; by rewrite Hbuf, length_replicate).
    replace (ring_of (feed p [])) with (RotatingAudioBuffer.new d).
    + apply holds_new. unfold d. lia.
    + unfold ring_of, RotatingAudioBuffer.new, feed. simpl.
      rewrite Hidx. fold d. f_equal. by rewrite Hbuf, Hdn.
  - destruct IH as (Hring & Hf1 & Hf2).
    rewrite feed_snoc. split; [|split].
    + rewrite ring_of_process. apply holds_write_step; [unfold d; lia|done].
    + by rewrite filter1_process, Hf1, filter_feed_snoc.
    + destruct Hring as (_ & _ & Hcur & Hslots).
      unfold ring_of in Hcur, Hslots. simpl in Hcur, Hslots.
      rewrite filter2_process, Hcur, get_at, Hslots by (unfold d; lia).
      rewrite Hf2, length_app. change (length [x]) with 1%nat.
      rewrite Nat.add_1_r, app_assoc.
      rewrite (take_app_le (replicate d (JS.Num 0) ++ samples) [x]);
        [|rewrite length_app, length_replicate; unfold d; lia].
      destruct (lookup_lt_is_Some_2 (replicate d (JS.Num 0) ++ samples)
                  (length samples)) as [y Hy].
      { rewrite length_app, length_replicate. unfold d. lia. }
      by rewrite Hy, (take_S_r _ _ _ Hy), filter_feed_snoc.
Qed.

Lemma second_filter_hears_delayed_input_witness :
  exists p, new 69 44100 6 = Some p /\
    filter1 (feed p [JS.Num 1; JS.Num 2]) = IIRBandBoostFilter.feed (filter1 p) [JS.Num 1; JS.Num 2].
Proof.
  assert (center_frequency 69 <= 44100 / 2) as H69
    by (rewrite center_frequency_69; lra).
  destruct (new_nonempty 69 44100 6 H69) as (p & Hp & Hlen).
  exists p. split; [done|].
  apply (second_filter_hears_delayed_input 69 44100 6 p [JS.Num 1; JS.Num 2] Hp Hlen).
Defined.

(** A pair with an empty delay buffer keeps it empty, and [NaN] power
    stays [NaN]. *)
Lemma empty_delay_stays (p : t) (x : JS.num) :
  delayBuffer p = [] -> delayBuffer (process p x).1 = [].
Proof.
  intros Hbuf. unfold process. simpl. rewrite Hbuf.
  destruct (delayIndex p) as [z|]; [|done]. simpl. by destruct (decide _).
Qed.

(** X10.  A pair whose delay buffer is empty never recovers: after any
    stream of one sample or more, whatever the samples, [getInstantPower]
    is [NaN]. *)
Theorem empty_delay_power_is_NaN (p : t) (samples : list JS.num) :
  delayBuffer p = [] -> samples <> [] ->
  getInstantPower (feed p samples) = JS.NaN.
Proof.
  intros Hbuf Hne.
  induction samples as [|x samples IH] using rev_ind; [done|].
  rewrite feed_snoc. apply empty_delay_gives_NaN.
  clear IH Hne. induction samples as [|y samples IH] using rev_ind; [done|].
  rewrite feed_snoc. by apply empty_delay_stays.
Qed.

Lemma empty_delay_power_is_NaN_witness :
  exists p, new 108 8000 6 = Some p /\
    getInstantPower (feed p [JS.Num 1; JS.Num 0; JS.Num 0]) = JS.NaN.
Proof.
  pose proof center_frequency_108 as H108.
  destruct (new_empty 108 8000 6 ltac:(lra)) as (p & Hp & Hbuf).
  exists p. split; [done|].
  apply (empty_delay_power_is_NaN p [JS.Num 1; JS.Num 0; JS.Num 0] Hbuf). done.
Defined.

End Estimator.

Section Scaling.

Import DelayedIIRBandBoostFilterPair EstimatorState.
Local Open Scope R_scope.

Local Abbreviation center_frequency := IIRBandBoostFilter.center_frequency.

Lemma scaled_filter_process (c : R) (f f' : IIRBandBoostFilter.t) (x x' : JS.num) :
  scaled_filter c f f' -> scaled_num c x x' ->
  scaled_filter c (IIRBandBoostFilter.process f x).1
                  (IIRBandBoostFilter.process f' x').1 /\
  scaled_num c (IIRBandBoostFilter.process f x).2
               (IIRBandBoostFilter.process f' x').2.
Proof.
  intros (Hb0 & Hb1 & Hb2 & Ha1 & Ha2 & (x1 & E1 & E1') & (x2 & E2 & E2')
          & (y1 & E3 & E3') & (y2 & E4 & E4')) (x0 & E0 & E0').
  unfold IIRBandBoostFilter.process, scaled_filter. simpl.
  rewrite Hb0, Hb1, Hb2, Ha1, Ha2, E0, E0', E1, E1', E2, E2', E3, E3', E4, E4'.
  simpl.
  assert (forall r, IIRBandBoostFilter.b0 f * (c * x0) + IIRBandBoostFilter.b1 f * (c * x1)
                    + IIRBandBoostFilter.b2 f * (c * x2)
                    - IIRBandBoostFilter.a1 f * (c * y1)
                    - IIRBandBoostFilter.a2 f * (c * y2) = r ->
                    r = c * (IIRBandBoostFilter.b0 f * x0 + IIRBandBoostFilter.b1 f * x1
                             + IIRBandBoostFilter.b2 f * x2
                             - IIRBandBoostFilter.a1 f * y1
                             - IIRBandBoostFilter.a2 f * y2)) as Hout
    by (intros r <-; ring).
  rewrite (Hout _ eq_refl).
  repeat split; by eexists.
Qed.

Lemma scaled_pair_process (c : R) (p p' : t) (x : R) :
  scaled_pair c p p' ->
  scaled_pair c (process p (JS.Num x)).1 (process p' (JS.Num (c * x))).1.
Proof.
  intros (Hf1 & Hf2 & Hbuf & (i & Hi & Hi' & Hlt) & (pm & Hpm & Hpm')).
  destruct (lookup_lt_is_Some_2 _ _ Hlt) as [d Hd].
  destruct (Forall2_lookup_l _ _ _ _ _ Hbuf Hd) as (d' & Hd' & (dr & -> & ->)).
  destruct (scaled_filter_process c _ _ (JS.Num x) (JS.Num (c * x)) Hf1)
    as (Hf1' & (o1 & Ho1 & Ho1')); [by eexists|].
  destruct (scaled_filter_process c _ _ (JS.Num dr) (JS.Num (c * dr)) Hf2)
    as (Hf2' & (o2 & Ho2 & Ho2')); [by eexists|].
  pose proof (Forall2_length _ _ _ Hbuf) as Hlen.
  unfold process, scaled_pair.
  rewrite Hi, Hi', !get_at, Hd, Hd', !set_at, !length_insert, Hpm, Hpm'.
  rewrite <- Hlen, !next_index by lia.
  simpl default. rewrite Ho1, Ho1', Ho2, Ho2'. simpl.
  split; [done|]. split; [done|].
  split; [apply Forall2_insert; [done|by eexists]|].
  split.
  - eexists. split; [done|]. split; [done|].
    rewrite length_insert. apply Nat.mod_upper_bound. lia.
  - eexists. split; [done|]. f_equal. ring.
Qed.

Lemma scaled_pair_feed (c : R) (p p' : t) (samples : list R) :
  scaled_pair c p p' ->
  scaled_pair c (feed p (JS.Num <$> samples))
                (feed p' (JS.Num <$> (Rmult c <$> samples))).
Proof.
  unfold feed. revert p p'.
  induction samples as [|x samples IH]; intros p p' Hp; [done|].
  simpl. apply IH. by apply scaled_pair_process.
Qed.

Lemma scaled_pair_new (c : R) (midiNoteNumber sampleRate peakGainDB : R) (p : t) :
  new midiNoteNumber sampleRate peakGainDB = Some p ->
  (1 <= length (delayBuffer p))%nat -> scaled_pair c p p.
Proof.
  intros Hp Hlen.
  destruct (new_Some _ _ _ _ Hp) as (_ & Hbuf & Hidx & Hpow & Hf1 & Hf2).
  assert (scaled_num c (JS.Num 0) (JS.Num 0)) as Hzero
    by (exists 0; split; [done|f_equal; ring]).
  assert (scaled_filter c
            (IIRBandBoostFilter.new midiNoteNumber sampleRate peakGainDB)
            (IIRBandBoostFilter.new midiNoteNumber sampleRate peakGainDB)) as Hnew.
  { unfold IIRBandBoostFilter.new.
    repeat (destruct (Rle_dec _ _) || destruct (Rge_dec _ _)
            || destruct (Req_dec_T _ _)); by repeat split. }
  unfold scaled_pair. rewrite Hf1, Hf2, Hidx, Hpow, Hbuf.
  split; [done|]. split; [done|].
  split; [apply Forall2_replicate; done|].
  split; [exists 0%nat; rewrite <- Hbuf; by repeat split|].
  exists 0. split; [done|f_equal; ring].
Qed.

(** X11.  The power estimate is quadratic in the amplitude: for a pair
    with a delay buffer of at least one slot, scaling every sample of a
    (finite) stream by [c] scales [getInstantPower] by [c * c]; so a silent
    stream leaves it at 0. *)
Theorem power_scales_with_square
    (midiNoteNumber sampleRate peakGainDB : R) (p : t) :
  new midiNoteNumber sampleRate peakGainDB = Some p ->
  (1 <= length (delayBuffer p))%nat ->
  (forall (c : R) (samples : list R),
     exists power : R,
       getInstantPower (feed p (JS.Num <$> samples)) = JS.Num power /\
       getInstantPower (feed p (JS.Num <$> (Rmult c <$> samples)))
       = JS.Num (c * c * power)) /\
  (forall n : nat, getInstantPower (feed p (replicate n (JS.Num 0))) = JS.Num 0).
Proof.
  intros Hp Hlen.
  assert (forall (c : R) (samples : list R),
            exists power : R,
              getInstantPower (feed p (JS.Num <$> samples)) = JS.Num power /\
              getInstantPower (feed p (JS.Num <$> (Rmult c <$> samples)))
              = JS.Num (c * c * power)) as Hscale.
  { intros c samples.
    destruct (scaled_pair_feed c p p samples (scaled_pair_new c _ _ _ p Hp Hlen))
      as (_ & _ & _ & _ & (power & Hpow & Hpow')).
    by exists power. }
  split; [done|]. intros n.
  destruct (Hscale 0 (replicate n 0)) as (power & _ & Hzero).
  rewrite <- !list_fmap_compose in Hzero.
  rewrite fmap_replicate in Hzero. simpl in Hzero.
  rewrite Rmult_0_l in Hzero. rewrite Hzero. f_equal. ring.
Qed.

Lemma power_scales_with_square_witness :
  exists p, new 69 44100 6 = Some p /\
    getInstantPower (feed p (replicate 3 (JS.Num 0))) = JS.Num 0.
Proof.
  assert (center_frequency 69 <= 44100 / 2) as H69
    by (rewrite center_frequency_69; lra).
  destruct (new_nonempty 69 44100 6 H69) as (p & Hp & Hlen).
  exists p. split; [done|].
  apply (proj2 (power_scales_with_square 69 44100 6 p Hp Hlen) 3%nat).
Defined.

End Scaling.

(** ** The bank on blocks, and the power snapshot end to end *)

Section BankMore.

Import BankRuns.

Local Abbreviation power := DelayedIIRBandBoostFilterPair.getInstantPower.
Local Abbreviation feed := DelayedIIRBandBoostFilterPair.feed.

Lemma feed_app (f : DelayedIIRBandBoostFilterPair.t) (xs ys : list JS.num) :
  feed f (xs ++ ys) = feed (feed f xs) ys.
Proof. unfold DelayedIIRBandBoostFilterPair.feed. by rewrite foldl_app. Qed.

(** X12.  On a bank of 88 pairs [process] never throws and always returns
    [true]; it feeds the samples of the first channel of the first input,
    in order, to every pair, ignores every other channel and input, and
    without such samples leaves the bank as it is. *)
Theorem process_feeds_first_channel
    (ep : EarProcessor.t) (inputs : list (list (list JS.num))) :
  length (EarProcessor.filters ep) = 88 ->
  EarProcessor.process ep inputs
  = Some ({| EarProcessor.filters :=
               (fun f => feed f (first_channel inputs)) <$> EarProcessor.filters ep |},
          true) /\
  (first_channel inputs = [] -> EarProcessor.process ep inputs = Some (ep, true)).
Proof.
  intros Hlen.
  assert (first_channel inputs = [] -> EarProcessor.process ep inputs = Some (ep, true))
    as Hempty.
  { destruct inputs as [|[|[|x channel] channels] inputs]; try done. }
  split; [|done].
  destruct (first_channel inputs) as [|x channel] eqn:Hch.
  - rewrite Hempty by done. unfold DelayedIIRBandBoostFilterPair.feed. simpl.
    rewrite list_fmap_id. by destruct ep.
  - destruct inputs as [|[|[|y channel'] channels] inputs]; try done.
    simpl in Hch. injection Hch as -> ->.
    by apply EarProcessor_process_feeds.
Qed.

Lemma process_feeds_first_channel_witness :
  exists ep, EarProcessor.new 44100 = Some ep /\
    EarProcessor.process ep [[]; [[JS.Num 1]]] = Some (ep, true).
Proof.
  destruct (EarProcessor_new_is_Some 44100 ltac:(lra)) as [ep Hep].
  exists ep. split; [done|].
  apply (proj2 (process_feeds_first_channel ep [[]; [[JS.Num 1]]]
                  (proj1 (EarProcessor_new_Some _ _ Hep)))).
  reflexivity.
Defined.

(** X13.  Block boundaries do not matter: on a bank of 88 pairs, two
    [process] calls on two blocks leave the bank as one call on the two
    blocks joined does. *)
Theorem process_block_after_block
    (ep : EarProcessor.t) (block1 block2 : list JS.num) :
  length (EarProcessor.filters ep) = 88 ->
  exists ep1,
    EarProcessor.process ep [[block1]] = Some (ep1, true) /\
    EarProcessor.process ep1 [[block2]]
    = EarProcessor.process ep [[block1 ++ block2]].
Proof.
  intros Hlen.
  destruct (process_feeds_first_channel ep [[block1]] Hlen) as [H1 _].
  set (ep1 := {| EarProcessor.filters :=
                   (fun f => feed f (first_channel [[block1]]))
                     <$> EarProcessor.filters ep |}) in *.
  assert (length (EarProcessor.filters ep1) = 88) as Hlen1
    by (unfold ep1; cbn [EarProcessor.filters]; by rewrite length_fmap).
  exists ep1. split; [exact H1|].
  rewrite (proj1 (process_feeds_first_channel ep1 [[block2]] Hlen1)).
  rewrite (proj1 (process_feeds_first_channel ep [[block1 ++ block2]] Hlen)).
  unfold ep1. cbn [EarProcessor.filters first_channel].
  do 3 f_equal. rewrite <- list_fmap_compose.
  apply list_fmap_ext. intros i f _. simpl. by rewrite feed_app.
Qed.

Lemma process_block_after_block_witness :
  exists ep ep1, EarProcessor.new 44100 = Some ep /\
    EarProcessor.process ep [[[JS.Num 1]]] = Some (ep1, true) /\
    EarProcessor.process ep1 [[[JS.Num 2; JS.Num 3]]]
    = EarProcessor.process ep [[[JS.Num 1] ++ [JS.Num 2; JS.Num 3]]].
Proof.
  destruct (EarProcessor_new_is_Some 44100 ltac:(lra)) as [ep Hep].
  destruct (process_block_after_block ep [JS.Num 1] [JS.Num 2; JS.Num 3]
              (proj1 (EarProcessor_new_Some _ _ Hep))) as (ep1 & H1 & H2).
  by exists ep, ep1.
Defined.

Lemma fill_rounds (fs : list DelayedIIRBandBoostFilterPair.t)
    (data : list JS.num) (k : nat) :
  k <= length fs ->
  foldl (fun acc i =>
           d ← acc;
           f ← fs !! i;
           Some (JS.set d (Some (Z.of_nat i)) (power f)))
        (Some data) (seq 0 k)
  = Some (take k (take (length data) (power <$> fs)) ++ drop k data).
Proof.
  induction k as [|k IH]; intros Hk; [done|].
  rewrite seq_S, foldl_snoc, IH by lia. simpl.
  destruct (lookup_lt_is_Some_2 fs k ltac:(lia)) as [f Hf].
  rewrite Hf. simpl. destruct (decide _); [|lia]. f_equal. rewrite Nat2Z.id.
  set (pw := take (length data) (power <$> fs)).
  destruct (decide (k < length data)) as [Hlt|Hge].
  - destruct (lookup_lt_is_Some_2 data k Hlt) as [d Hd].
    assert (pw !! k = Some (power f)) as Hpw
      by (unfold pw; by rewrite lookup_take_lt, list_lookup_fmap, Hf).
    pose proof (lookup_lt_Some _ _ _ Hpw) as Hklt.
    rewrite insert_app_r_alt; rewrite length_take, Nat.min_l; try lia.
    rewrite Nat.sub_diag, (drop_S _ _ _ Hd). simpl.
    by rewrite (take_S_r _ _ _ Hpw), <- app_assoc.
  - assert (length pw <= k) as Hpw
      by (unfold pw; rewrite length_take; lia).
    rewrite !drop_ge, !app_nil_r, !take_ge by lia.
    apply list_insert_ge. lia.
Qed.

(** X14.  The [get-data] loop against a buffer of any size: on a bank of
    88 pairs, a buffer of [n] floats comes back with its first [min n 88]
    floats replaced by the powers of the first pairs, in order, and any
    float beyond the 88th untouched; a store beyond the end of a shorter
    buffer is dropped. *)
Theorem fill_any_buffer
    (fs : list DelayedIIRBandBoostFilterPair.t) (data : list JS.num) :
  length fs = 88 ->
  EarProcessor.fill fs data
  = Some (take (length data) (power <$> fs) ++ drop 88 data).
Proof.
  intros Hfs. unfold EarProcessor.fill. rewrite fill_rounds by lia.
  f_equal. f_equal. apply take_ge. rewrite length_take, length_fmap. lia.
Qed.

Lemma fill_any_buffer_witness :
  exists ep, EarProcessor.new 44100 = Some ep /\
    EarProcessor.fill (EarProcessor.filters ep) [JS.Num 5; JS.Num 5]
    = Some [JS.Num 0; JS.Num 0].
Proof.
  destruct (EarProcessor_new_is_Some 44100 ltac:(lra)) as [ep Hep].
  exists ep. split; [done|].
  rewrite (fill_any_buffer _ [JS.Num 5; JS.Num 5] (proj1 (EarProcessor_new_Some _ _ Hep))).
  rewrite (EarProcessor_new_silent _ _ Hep). reflexivity.
Defined.

(** X15.  The power snapshot end to end: a request posted by
    [getEarPowerData], handed to the [onmessage] of a bank of 88 pairs,
    gets one reply, and that reply, handed to [_handleWorkerMessage],
    resolves the promise of the request with the 88 powers of the bank, in
    note order, and removes the request from [pendingRequests]. *)
Theorem power_snapshot_round_trip (r : EarDataRequester.t) (ep : EarProcessor.t) :
  length (EarProcessor.filters ep) = 88 ->
  exists request reply,
    (EarDataRequester.getEarPowerData r true).2 = [PostMessage request] /\
    EarProcessor.onmessage ep request = Some [reply] /\
    let r1 := (EarDataRequester.getEarPowerData r true).1 in
    (EarDataRequester._handleWorkerMessage r1 reply).2
    = [Resolve (EarDataRequester.requestIdCounter r)
               (power <$> EarProcessor.filters ep)] /\
    EarDataRequester.pendingRequests
      (EarDataRequester._handleWorkerMessage r1 reply).1
      !! EarDataRequester.requestIdCounter r = None.
Proof.
  intros Hlen. eexists _, _. split; [done|]. split.
  - unfold EarProcessor.onmessage.
    cbn [JS.message JS.buffer JS.requestId JS.new_Float32Array].
    rewrite bool_decide_eq_true_2 by done.
    rewrite fill_any_buffer by done. cbn [mbind option_bind].
    rewrite length_replicate, take_ge by (rewrite length_fmap; lia).
    rewrite drop_ge by (rewrite length_replicate; lia). by rewrite app_nil_r.
  - unfold EarDataRequester._handleWorkerMessage, EarDataRequester.getEarPowerData.
    cbn [JS.message JS.buffer JS.requestId JS.new_Float32Array fst snd
         EarDataRequester.pendingRequests].
    rewrite bool_decide_eq_true_2 by done.
    rewrite lookup_insert_eq. cbn [promise fst snd EarDataRequester.pendingRequests].
    split; [done|]. apply lookup_delete_eq.
Qed.

Lemma power_snapshot_round_trip_witness :
  exists ep request reply,
    EarProcessor.new 44100 = Some ep /\
    (EarDataRequester.getEarPowerData EarDataRequester.new true).2
    = [PostMessage request] /\
    EarProcessor.onmessage ep request = Some [reply].
Proof.
  destruct (EarProcessor_new_is_Some 44100 ltac:(lra)) as [ep Hep].
  destruct (power_snapshot_round_trip EarDataRequester.new ep
              (proj1 (EarProcessor_new_Some _ _ Hep)))
    as (request & reply & Hpost & Hreply & _).
  by exists ep, request, reply.
Defined.

End BankMore.

(** ** Request ids *)

Section RequestIds.

Import EarDataRequester BankRuns.

Lemma posted_ids_app (es es' : list effect) :
  posted_ids (es ++ es') = posted_ids es ++ posted_ids es'.
Proof. apply omap_app. Qed.

Lemma posted_ids_rejects (m : gmap nat settlers) :
  posted_ids ((fun kv : nat * settlers => Reject (promise kv.2) DestroyedError)
                <$> map_to_list m) = [].
Proof. unfold posted_ids. by induction (map_to_list m) as [|kv l IH]. Qed.

Lemma requests_snoc (actions : list action) (a : action) :
  requests (actions ++ [a])
  = requests actions + match a with Request _ => 1 | _ => 0 end.
Proof.
  unfold requests. rewrite List.filter_app, length_app. by destruct a.
Qed.

(** X16.  Request ids are never reused: in every run of the requester the
    counter is the number of [getEarPowerData] calls made so far, and the
    ids of the messages posted are all different and all below the
    counter. *)
Theorem request_ids_are_fresh (actions : list action) :
  let r := (run new actions).1 in
  let es := (run new actions).2 in
  requestIdCounter r = requests actions /\
  Forall (fun id => id < requestIdCounter r) (posted_ids es) /\
  NoDup (posted_ids es).
Proof.
  induction actions as [|a actions IH] using rev_ind.
  - split; [done|]. split; [constructor|]. simpl. constructor.
  - rewrite run_snoc, requests_snoc. simpl.
    destruct IH as (Hcount & Hbelow & Hnodup).
    set (r := (run new actions).1) in *. set (es := (run new actions).2) in *.
    rewrite posted_ids_app.
    destruct a as [[|]|data|]; simpl.
    + split; [lia|]. split.
      * apply Forall_app. split; [|by repeat constructor; lia].
        eapply Forall_impl; [exact Hbelow|]. simpl. lia.
      * apply NoDup_app. split; [done|]. split; [|apply NoDup_singleton].
        intros id Hin Hin'. apply list_elem_of_singleton in Hin'. subst id.
        rewrite Forall_forall in Hbelow. apply Hbelow in Hin. lia.
    + rewrite app_nil_r. split; [lia|]. split; [|done].
      eapply Forall_impl; [exact Hbelow|]. simpl. lia.
    + assert (requestIdCounter (if listening r then _handleWorkerMessage r data
                                else (r, [])).1 = requestIdCounter r /\
              posted_ids (if listening r then _handleWorkerMessage r data
                          else (r, [])).2 = []) as [-> ->].
      { destruct (listening r); [|done]. unfold _handleWorkerMessage.
        destruct (bool_decide _); [|done].
        destruct (JS.requestId data); [|done].
        by destruct (pendingRequests r !! _). }
      rewrite app_nil_r. split; [lia|done].
    + rewrite posted_ids_app, posted_ids_rejects. simpl. rewrite app_nil_r.
      split; [lia|done].
Qed.

End RequestIds.

(** ** Colours *)

Section Colours.

Local Open Scope R_scope.

Lemma Math_round_IZR (n : Z) : JS.Math_round (IZR n) = n.
Proof.
  pose proof (Math_round_bounds (IZR n)) as [Hle Hlt].
  assert (JS.Math_round (IZR n) < n + 1)%Z
    by (apply lt_IZR; rewrite plus_IZR; simpl; lra).
  assert (n - 1 < JS.Math_round (IZR n))%Z
    by (apply lt_IZR; rewrite minus_IZR; simpl; lra).
  lia.
Qed.

Lemma Math_round_between (x : R) (lo hi : Z) :
  IZR lo <= x <= IZR hi -> (lo <= JS.Math_round x <= hi)%Z.
Proof.
  intros [Hlo Hhi]. pose proof (Math_round_bounds x) as [Hle Hlt].
  assert (lo - 1 < JS.Math_round x)%Z
    by (apply lt_IZR; rewrite minus_IZR; simpl; lra).
  assert (JS.Math_round x < hi + 1)%Z
    by (apply lt_IZR; rewrite plus_IZR; simpl; lra).
  lia.
Qed.

(** The shape function of a channel stays between -1 and 1. *)
Lemma channel_shape (k : R) : -1 <= Rmax (-1) (Rmin (k - 3) (Rmin (9 - k) 1)) <= 1.
Proof.
  split; [apply Rmax_l|].
  apply Rmax_lub; [lra|].
  eapply Rle_trans; [apply Rmin_r|]. apply Rmin_r.
Qed.

(** X17.  For a saturation and a lightness between 0 and 100, and any
    hue, each of the three channels [hslToRgb] returns is an integer
    between 0 and 255. *)
Theorem hslToRgb_channels_in_range (h s l : R) :
  0 <= s <= 100 -> 0 <= l <= 100 ->
  length (hslToRgb h s l) = 3%nat /\
  Forall (fun v => (0 <= v <= 255)%Z) (hslToRgb h s l).
Proof.
  intros Hs Hl. split; [done|]. unfold hslToRgb.
  set (a := s / 100 * Rmin (l / 100) (1 - l / 100)).
  assert (0 <= a <= l / 100 /\ a <= 1 - l / 100) as Ha.
  { unfold a.
    assert (0 <= Rmin (l / 100) (1 - l / 100)) by (apply Rmin_glb; lra).
    pose proof (Rmin_l (l / 100) (1 - l / 100)).
    pose proof (Rmin_r (l / 100) (1 - l / 100)).
    split; [split|]; nra. }
  assert (forall k, (0 <= JS.Math_round
                            (255 * (l / 100
                                    - a * Rmax (-1) (Rmin (k - 3) (Rmin (9 - k) 1))))
                     <= 255)%Z) as Hchannel.
  { intros k. pose proof (channel_shape k) as Hshape.
    apply Math_round_between. simpl. nra. }
  repeat constructor; apply Hchannel.
Qed.

Lemma hslToRgb_channels_in_range_witness :
  Forall (fun v => (0 <= v <= 255)%Z) (hslToRgb 180 100 50).
Proof.
  apply (hslToRgb_channels_in_range 180 100 50); lra.
Defined.

(** X18.  Without lightness the colour is black and at full lightness it
    is white, whatever the hue and the saturation; without saturation the
    three channels are the same grey, the lightness rounded on the scale
    of 255. *)
Theorem hslToRgb_greys (h s l : R) :
  hslToRgb h s 0 = [0; 0; 0]%Z /\
  hslToRgb h s 100 = [255; 255; 255]%Z /\
  hslToRgb h 0 l = replicate 3 (JS.Math_round (255 * (l / 100))).
Proof.
  unfold hslToRgb. split; [|split].
  - replace (0 / 100) with 0 by lra.
    rewrite Rmin_left by lra.
    rewrite !Rmult_0_r, !Rmult_0_l, !Rminus_0_r, !Rmult_0_r.
    by rewrite (Math_round_IZR 0).
  - replace (100 / 100) with 1 by lra.
    rewrite Rmin_right by lra.
    replace (1 - 1) with 0 by lra.
    rewrite !Rmult_0_r, !Rmult_0_l, !Rminus_0_r, !Rmult_1_r.
    by rewrite (Math_round_IZR 255).
  - replace (0 / 100) with 0 by lra.
    by rewrite !Rmult_0_l, !Rminus_0_r.
Qed.

End Colours.

Section Hue.

Local Open Scope R_scope.

Lemma Math_round_le (x y : R) : x <= y -> (JS.Math_round x <= JS.Math_round y)%Z.
Proof.
  intros Hxy.
  pose proof (Math_round_bounds x) as [Hx _].
  pose proof (Math_round_bounds y) as [_ Hy].
  assert (JS.Math_round x < JS.Math_round y + 1)%Z
    by (apply lt_IZR; rewrite plus_IZR; simpl; lra).
  lia.
Qed.

(** The remainder by 12 of a non-negative number written as [r + 12 q]
    with [0 <= r < 12]. *)
Lemma fmod_12 (r : R) (q : Z) :
  0 <= r < 12 -> (0 <= q)%Z -> Numeric.fmod (r + 12 * IZR q) 12 = r.
Proof.
  intros Hr Hq. unfold Numeric.fmod, Numeric.trunc.
  assert (0 <= IZR q) by (by apply IZR_le).
  destruct (Rle_dec _ _) as [_|Hneg]; [|exfalso; apply Hneg; lra].
  assert (Int_part ((r + 12 * IZR q) / 12) = q) as ->; [|lra].
  symmetry. apply Int_part_spec. lra.
Qed.

(** A non-negative number is such a sum. *)
Lemma split_by_12 (x : R) :
  0 <= x -> exists (r : R) (q : Z), 0 <= r < 12 /\ (0 <= q)%Z /\ x = r + 12 * IZR q.
Proof.
  intros Hx. destruct (base_Int_part (x / 12)) as [Hle Hgt].
  exists (x - 12 * IZR (Int_part (x / 12))), (Int_part (x / 12)).
  split; [lra|]. split; [|lra].
  assert (-1 < Int_part (x / 12))%Z by (apply lt_IZR; lra). lia.
Qed.

(** X19.  For a hue that is not negative, and a saturation and a
    lightness between 0 and 100: with [a] for
    [s/100 * min(l/100, 1 - l/100)], the three channels lie between
    [round(255 (l/100 - a))] and [round(255 (l/100 + a))], and both bounds
    are among them.  So at full saturation a colour of lightness 50 has a
    channel at 0 and a channel at 255. *)
Theorem hslToRgb_extremes (h s l : R) :
  0 <= h -> 0 <= s <= 100 -> 0 <= l <= 100 ->
  let a := s / 100 * Rmin (l / 100) (1 - l / 100) in
  let lo := JS.Math_round (255 * (l / 100 - a)) in
  let hi := JS.Math_round (255 * (l / 100 + a)) in
  Forall (fun v => (lo <= v <= hi)%Z) (hslToRgb h s l) /\
  lo ∈ hslToRgb h s l /\ hi ∈ hslToRgb h s l.
Proof.
  intros Hh Hs Hl a lo hi.
  assert (0 <= a).
  { unfold a. apply Rmult_le_pos; [lra|]. apply Rmin_glb; lra. }
  set (shape := fun k : R => Rmax (-1) (Rmin (k - 3) (Rmin (9 - k) 1))).
  assert (forall k, (lo <= JS.Math_round (255 * (l / 100 - a * shape k)) <= hi)%Z)
    as Hbetween.
  { intros k. pose proof (channel_shape k) as Hshape. fold (shape k) in Hshape.
    split; apply Math_round_le; nra. }
  assert (forall k, 4 <= k <= 8 -> shape k = 1) as Hone.
  { intros k Hk. unfold shape.
    rewrite (Rmin_right (9 - k) 1), (Rmin_right (k - 3) 1), Rmax_right by lra. done. }
  assert (forall k, k <= 2 \/ 10 <= k -> shape k = -1) as Hminus.
  { intros k Hk. unfold shape. apply Rmax_left.
    destruct Hk.
    - eapply Rle_trans; [apply Rmin_l|]. lra.
    - eapply Rle_trans; [apply Rmin_r|].
      eapply Rle_trans; [apply Rmin_l|]. lra. }
  destruct (split_by_12 (h / 30)) as (t & q & Ht & Hq & Hsplit); [lra|].
  assert (forall n : R, 0 <= n + t < 12 ->
            Numeric.fmod (n + h / 30) 12 = n + t) as Hlow.
  { intros n Hn. rewrite Hsplit.
    replace (n + (t + 12 * IZR q)) with (n + t + 12 * IZR q) by lra.
    by apply fmod_12. }
  assert (forall n : R, 12 <= n + t < 24 ->
            Numeric.fmod (n + h / 30) 12 = n + t - 12) as Hhigh.
  { intros n Hn. rewrite Hsplit.
    replace (n + (t + 12 * IZR q)) with (n + t - 12 + 12 * IZR (q + 1))
      by (rewrite plus_IZR; simpl; lra).
    apply fmod_12; [lra|lia]. }
  unfold hslToRgb. fold a.
  change (fun k : R => Rmax (-1) (Rmin (k - 3) (Rmin (9 - k) 1))) with shape.
  set (k0 := Numeric.fmod (0 + h / 30) 12).
  set (k8 := Numeric.fmod (8 + h / 30) 12).
  set (k4 := Numeric.fmod (4 + h / 30) 12).
  fold (shape k0) (shape k8) (shape k4).
  split; [do 3 (constructor; [apply Hbetween|]); constructor|].
  assert (forall k, shape k = 1 -> JS.Math_round (255 * (l / 100 - a * shape k)) = lo)
    as Hlo by (intros k ->; unfold lo; f_equal; lra).
  assert (forall k, shape k = -1 -> JS.Math_round (255 * (l / 100 - a * shape k)) = hi)
    as Hhi by (intros k ->; unfold hi; f_equal; lra).
  assert ((shape k0 = 1 \/ shape k8 = 1 \/ shape k4 = 1) /\
          (shape k0 = -1 \/ shape k8 = -1 \/ shape k4 = -1)) as [Hl1 Hm1].
  { unfold k0, k8, k4.
    destruct (Rle_dec t 2); [|destruct (Rlt_dec t 4); [|destruct (Rle_dec t 6);
      [|destruct (Rlt_dec t 8); [|destruct (Rle_dec t 10)]]]].
    - rewrite (Hlow 0), (Hlow 4) by lra. split.
      + right; right. apply Hone; lra.
      + left. apply Hminus; lra.
    - rewrite (Hlow 8), (Hlow 4) by lra. split.
      + right; right. apply Hone; lra.
      + right; left. apply Hminus; lra.
    - rewrite (Hlow 0), (Hhigh 8) by lra. split.
      + left. apply Hone; lra.
      + right; left. apply Hminus; lra.
    - rewrite (Hlow 0), (Hlow 4) by lra. split.
      + left. apply Hone; lra.
      + right; right. apply Hminus; lra.
    - rewrite (Hhigh 8), (Hhigh 4) by lra. split.
      + right; left. apply Hone; lra.
      + right; right. apply Hminus; lra.
    - rewrite (Hlow 0), (Hhigh 8) by lra. split.
      + right; left. apply Hone; lra.
      + left. apply Hminus; lra. }
  split.
  - destruct Hl1 as [E|[E|E]]; rewrite <- (Hlo _ E);
      [left | right; left | right; right; left].
  - destruct Hm1 as [E|[E|E]]; rewrite <- (Hhi _ E);
      [left | right; left | right; right; left].
Qed.

Lemma hslToRgb_extremes_witness :
  (0 ∈ hslToRgb 200 100 50)%Z /\ (255 ∈ hslToRgb 200 100 50)%Z.
Proof.
  destruct (hslToRgb_extremes 200 100 50 ltac:(lra) ltac:(lra) ltac:(lra))
    as (_ & Hlo & Hhi).
  assert (Rmin (50 / 100) (1 - 50 / 100) = 1 / 2) as Hmin
    by (rewrite Rmin_left; lra).
  rewrite Hmin in Hlo, Hhi.
  replace (255 * (50 / 100 - 100 / 100 * (1 / 2))) with (IZR 0) in Hlo by lra.
  replace (255 * (50 / 100 + 100 / 100 * (1 / 2))) with (IZR 255) in Hhi by lra.
  rewrite Math_round_IZR in Hlo, Hhi. by split.
Defined.

End Hue.

(** ** The MIDI monitor *)

Section Monitor.

Import MidiMonitor.
Local Open Scope string_scope.

(** A byte is written as its two hexadecimal digits. *)
Lemma byte_hex (x : nat) :
  x < 256 ->
  padStart 2 "0"%char (toString16 x)
  = String (digit (x / 16)) (String (digit (x mod 16)) "").
Proof.
  intros Hx.
  assert (forallb (fun x => String.eqb (padStart 2 "0"%char (toString16 x))
                              (String (digit (x / 16)) (String (digit (x mod 16)) "")))
                  (seq 0 256) = true) as Hall by (vm_compute; reflexivity).
  rewrite forallb_forall in Hall.
  apply String.eqb_eq, Hall, in_seq. lia.
Qed.

Lemma digit_value_digit (d : nat) : d < 16 -> digit_value (digit d) = Some d.
Proof.
  intros Hd.
  assert (forallb (fun d => match digit_value (digit d) with
                            | Some d' => (d' =? d)%nat
                            | None => false
                            end) (seq 0 16) = true) as Hall
    by (vm_compute; reflexivity).
  rewrite forallb_forall in Hall.
  specialize (Hall d ltac:(apply in_seq; lia)).
  destruct (digit_value (digit d)) as [d'|]; [|done].
  apply Nat.eqb_eq in Hall. by subst.
Qed.

Lemma byte_digits (x : nat) : x < 256 -> x / 16 < 16 /\ x mod 16 < 16 /\ 16 * (x / 16) + x mod 16 = x.
Proof.
  intros Hx. split; [apply Nat.Div0.div_lt_upper_bound; lia|].
  split; [apply Nat.mod_upper_bound; lia|].
  symmetry. apply Nat.div_mod_eq.
Qed.

Lemma hexData_cons (x y : nat) (data : list nat) :
  hexData (x :: y :: data)
  = padStart 2 "0"%char (toString16 x) +:+ " " +:+ hexData (y :: data).
Proof. done. Qed.

(** X20.  The hex dump of a message loses nothing: for bytes (values
    below 256) it has two digits per byte and one space between bytes,
    [3 n - 1] characters for [n >= 1] bytes, and reading the digits back
    gives the bytes. *)
Theorem hex_dump_round_trip (data : list nat) :
  Forall (fun x => x < 256) data ->
  read_hexData (hexData data) = Some data /\
  String.length (hexData data) = 3 * length data - 1.
Proof.
  induction data as [|x [|y data] IH]; intros Hbytes.
  - done.
  - apply Forall_cons in Hbytes as [Hx _].
    destruct (byte_digits x Hx) as (Hhi & Hlo & Hsum).
    change (hexData [x]) with (padStart 2 "0"%char (toString16 x)).
    rewrite byte_hex by done.
    cbn [read_hexData String.length].
    rewrite !digit_value_digit by done.
    by rewrite Hsum.
  - apply Forall_cons in Hbytes as [Hx Hrest].
    destruct (IH Hrest) as [Hread Hlen].
    destruct (byte_digits x Hx) as (Hhi & Hlo & Hsum).
    rewrite hexData_cons, byte_hex by done.
    set (rest := hexData (y :: data)) in *.
    change (String (digit (x / 16)) (String (digit (x mod 16)) "") +:+ " " +:+ rest)
      with (String (digit (x / 16)) (String (digit (x mod 16)) (String " " rest))).
    cbn [read_hexData String.length].
    rewrite !digit_value_digit by done.
    change (Ascii.eqb " " " ") with true. cbv iota.
    rewrite Hread, Hlen, Hsum. split; [done|]. simpl. lia.
Qed.

Lemma hex_dump_round_trip_witness :
  read_hexData (hexData [144; 60; 7]) = Some [144; 60; 7] /\
  hexData [144; 60; 7] = "90 3c 07".
Proof.
  split; [|reflexivity].
  apply (hex_dump_round_trip [144; 60; 7]).
  repeat constructor; lia.
Defined.

(** X21.  In every run of the page: the log is empty whenever the page
    is not capturing; the button reads [Stop!] while it captures and
    [Capture!] otherwise; while it captures the inputs have a handler;
    and the counter of the handlers never passes 1000. *)
Theorem monitor_invariants (events : list event) :
  let m := run initial events in
  (capturing m = false -> log m = []) /\
  buttonText m = (if capturing m then "Stop!" else "Capture!") /\
  (capturing m = true -> listening m = true) /\
  eventCount m <= 1000.
Proof.
  unfold run.
  induction events as [|e events IH] using rev_ind;
    [simpl; split_and!; first [done | lia | by auto]|].
  rewrite foldl_snoc. destruct IH as (Hlog & Hbutton & Hlisten & Hcount).
  set (m := foldl step initial events) in *.
  destruct e as [| | |name data]; simpl.
  - destruct (capturing m) eqn:Hcap; simpl.
    + split_and!; first [done | lia | by auto].
    + unfold startCapture. simpl. destruct (midiAccess m); simpl.
      * split_and!; first [done | lia | by auto].
      * rewrite Hcap. split_and!; first [done | lia | by auto].
  - split_and!; first [done | lia | by auto].
  - split_and!; first [done | lia | by auto].
  - destruct (listening m) eqn:Hl; cbv iota;
      [|split_and!; first [done | lia | by auto | intros Hc; by apply Hlisten in Hc]].
    unfold onmidimessage.
    destruct (eventCount m <? 1000)%nat eqn:Hlt; cbn [andb]; cbv iota;
      [|split_and!; first [done | lia | by auto]].
    destruct (capturing m) eqn:Hcap; cbv iota;
      [|rewrite Hcap; split_and!; first [done | lia | by auto]].
    destruct (skipped data); cbv iota;
      [rewrite Hcap; split_and!; first [done | lia | by auto]|].
    simpl. apply Nat.ltb_lt in Hlt. split_and!; first [done | lia | by auto].
Qed.

(** The messages of some inputs, as events. *)
Lemma run_messages (m : t) (messages : list (string * list nat)) :
  listening m = true ->
  run m ((fun nd => MidiMessage nd.1 nd.2) <$> messages)
  = foldl (fun m nd => onmidimessage m nd.1 nd.2) m messages.
Proof.
  unfold run. revert m.
  induction messages as [|[name data] messages IH]; intros m Hm; [done|].
  simpl. rewrite Hm. apply IH.
  unfold onmidimessage. destruct (_ && _); [|done]. by destruct (skipped data).
Qed.

(** X22.  One capture logs at most 1000 messages: over any messages
    handled by the handlers of one [beginCapture], the log only grows, by
    one line for each message counted, the counter stays at 1000 or
    below, and a message of the single byte 0xf8 or 0xfe is neither
    logged nor counted. *)
Theorem capture_logs_at_most_1000 (m : t) (messages : list (string * list nat)) :
  eventCount m <= 1000 ->
  let m' := foldl (fun m nd => onmidimessage m nd.1 nd.2) m messages in
  eventCount m' <= 1000 /\
  eventCount m <= eventCount m' /\
  length (log m') = length (log m) + (eventCount m' - eventCount m) /\
  (Forall (fun nd => skipped nd.2 = true) messages -> m' = m).
Proof.
  revert m. induction messages as [|[name data] messages IH]; intros m Hm.
  - simpl. split_and!; try done; lia.
  - simpl.
    assert (eventCount (onmidimessage m name data) <= 1000 /\
            eventCount m <= eventCount (onmidimessage m name data) /\
            length (log (onmidimessage m name data))
            = length (log m) + (eventCount (onmidimessage m name data) - eventCount m) /\
            (skipped data = true -> onmidimessage m name data = m))
      as (H1 & H2 & H3 & H4).
    { unfold onmidimessage.
      destruct (eventCount m <? 1000)%nat eqn:Hlt; simpl;
        [|split_and!; try done; lia].
      destruct (capturing m); simpl; [|split_and!; try done; lia].
      destruct (skipped data); simpl; [split_and!; try done; lia|].
      apply Nat.ltb_lt in Hlt. rewrite length_app. simpl.
      split_and!; try done; lia. }
    destruct (IH _ H1) as (H1' & H2' & H3' & H4').
    split; [done|]. split; [lia|]. split; [lia|].
    intros Hall. apply Forall_cons in Hall as [Hskip Hall]. simpl in Hskip.
    rewrite H4 in * by done. by apply H4'.
Qed.

Lemma capture_logs_at_most_1000_witness :
  length (log (foldl (fun m nd => onmidimessage m nd.1 nd.2)
                 (beginCapture initial)
                 [("in", [248]); ("in", [144; 60; 7])])) = 1.
Proof.
  destruct (capture_logs_at_most_1000 (beginCapture initial)
              [("in", [248]); ("in", [144; 60; 7])] ltac:(simpl; lia))
    as (_ & _ & Hlen & _).
  rewrite Hlen. reflexivity.
Defined.

End Monitor.

(** ** Linearity of the filter *)

Section Linearity.

Import IIRBandBoostFilter FilterRuns EstimatorState.
Local Open Scope R_scope.

Lemma added_filter_process (f g s : t) (x y : R) :
  added_filter f g s ->
  added_filter (process f (JS.Num x)).1 (process g (JS.Num y)).1
               (process s (JS.Num (x + y))).1 /\
  added_num (process f (JS.Num x)).2 (process g (JS.Num y)).2
            (process s (JS.Num (x + y))).2.
Proof.
  intros ((Gb0 & Gb1 & Gb2 & Ga1 & Ga2) & (Sb0 & Sb1 & Sb2 & Sa1 & Sa2)
          & (u1 & v1 & E1 & F1 & S1) & (u2 & v2 & E2 & F2 & S2)
          & (u3 & v3 & E3 & F3 & S3) & (u4 & v4 & E4 & F4 & S4)).
  unfold process, added_filter. simpl.
  rewrite Gb0, Gb1, Gb2, Ga1, Ga2, Sb0, Sb1, Sb2, Sa1, Sa2,
    E1, F1, S1, E2, F2, S2, E3, F3, S3, E4, F4, S4. simpl.
  assert (forall r, b0 f * (x + y) + b1 f * (u1 + v1) + b2 f * (u2 + v2)
                    - a1 f * (u3 + v3) - a2 f * (u4 + v4) = r ->
                    r = (b0 f * x + b1 f * u1 + b2 f * u2 - a1 f * u3 - a2 f * u4)
                        + (b0 f * y + b1 f * v1 + b2 f * v2 - a1 f * v3 - a2 f * v4))
    as Hout by (intros r <-; ring).
  rewrite (Hout _ eq_refl).
  split_and!; try done; by eexists _, _.
Qed.

Lemma added_responses (f g s : t) (xs ys : list R) :
  added_filter f g s -> length xs = length ys ->
  Forall3 added_num (responses f (JS.Num <$> xs)) (responses g (JS.Num <$> ys))
          (responses s (JS.Num <$> zip_with Rplus xs ys)).
Proof.
  revert f g s ys. induction xs as [|x xs IH]; intros f g s [|y ys] Hadd Hlen;
    try done; [constructor|].
  simpl. destruct (added_filter_process f g s x y Hadd) as [Hnext Hout].
  constructor; [done|]. apply IH; [done|]. simpl in Hlen. lia.
Qed.

Lemma scaled_responses (c : R) (f f' : t) (xs : list R) :
  scaled_filter c f f' ->
  Forall2 (scaled_num c) (responses f (JS.Num <$> xs))
          (responses f' (JS.Num <$> (Rmult c <$> xs))).
Proof.
  revert f f'. induction xs as [|x xs IH]; intros f f' Hscaled; [constructor|].
  simpl.
  destruct (scaled_filter_process c f f' (JS.Num x) (JS.Num (c * x)) Hscaled)
    as [Hnext Hout]; [by eexists|].
  constructor; [done|]. by apply IH.
Qed.

Lemma fresh_filter (midiNoteNumber sampleRate peakGainDB : R) :
  let f := new midiNoteNumber sampleRate peakGainDB in
  x1 f = JS.Num 0 /\ x2 f = JS.Num 0 /\ y1 f = JS.Num 0 /\ y2 f = JS.Num 0.
Proof.
  unfold new.
  repeat (destruct (Rle_dec _ _) || destruct (Rge_dec _ _)
          || destruct (Req_dec_T _ _)); done.
Qed.

(** X23.  A filter fresh from the constructor is linear on finite
    streams: the outputs on the sum of two streams of the same length are
    the sums of the outputs on each, and the outputs on a stream scaled by
    [c] are the outputs on the stream scaled by [c]. *)
Theorem filter_is_linear (midiNoteNumber sampleRate peakGainDB : R) :
  let f := new midiNoteNumber sampleRate peakGainDB in
  (forall xs ys : list R,
     length xs = length ys ->
     Forall3 added_num (responses f (JS.Num <$> xs)) (responses f (JS.Num <$> ys))
             (responses f (JS.Num <$> zip_with Rplus xs ys))) /\
  (forall (c : R) (xs : list R),
     Forall2 (scaled_num c) (responses f (JS.Num <$> xs))
             (responses f (JS.Num <$> (Rmult c <$> xs)))).
Proof.
  intros f.
  destruct (fresh_filter midiNoteNumber sampleRate peakGainDB)
    as (E1 & E2 & E3 & E4). fold f in E1, E2, E3, E4.
  split.
  - intros xs ys Hlen. apply added_responses; [|done].
    unfold added_filter. rewrite E1, E2, E3, E4.
    split_and!; try done; exists 0, 0; split_and!; try done; f_equal; lra.
  - intros c xs. apply scaled_responses.
    unfold scaled_filter. rewrite E1, E2, E3, E4.
    split_and!; try done; exists 0; split_and!; try done; f_equal; lra.
Qed.

Lemma filter_is_linear_witness :
  Forall3 added_num
    (responses (new 69 44100 6) (JS.Num <$> [1; 2]))
    (responses (new 69 44100 6) (JS.Num <$> [3; 4]))
    (responses (new 69 44100 6) (JS.Num <$> zip_with Rplus [1; 2] [3; 4])).
Proof.
  apply (proj1 (filter_is_linear 69 44100 6) [1; 2] [3; 4]). reflexivity.
Defined.

End Linearity.

(** ** The two ends of the power snapshot, at their edges *)

Section SnapshotEdges.

Import EarDataRequester.

(** X24.  The [get-data] handler of a bank of 88 pairs never throws and
    posts at most one reply, which carries the tag [data] and the request
    id of the message; a message with another tag, or without a buffer,
    gets no reply. *)
Theorem onmessage_replies_at_most_once (ep : EarProcessor.t) (data : JS.message_data) :
  length (EarProcessor.filters ep) = 88 ->
  exists replies,
    EarProcessor.onmessage ep data = Some replies /\
    length replies <= 1 /\
    Forall (fun reply => JS.message reply = Some "data"%string /\
                         JS.requestId reply = JS.requestId data) replies /\
    (JS.message data <> Some "get-data"%string \/ JS.buffer data = None ->
     replies = []).
Proof.
  intros Hlen. unfold EarProcessor.onmessage.
  case_bool_decide as Hmsg.
  - destruct (JS.buffer data) as [b|] eqn:Hb.
    + rewrite fill_any_buffer by done. cbn [mbind option_bind].
      eexists. split; [done|]. split; [simpl; lia|].
      split; [by repeat constructor|]. by intros [|].
    + exists []. split; [done|]. split; [simpl; lia|]. split; [constructor|done].
  - exists []. split; [done|]. split; [simpl; lia|]. split; [constructor|done].
Qed.

Lemma onmessage_replies_at_most_once_witness :
  exists ep, EarProcessor.new 44100 = Some ep /\
    EarProcessor.onmessage ep
      {| JS.type := None; JS.message := Some "get-data"%string;
         JS.buffer := None; JS.requestId := Some 3 |} = Some [].
Proof.
  destruct (EarProcessor_new_is_Some 44100 ltac:(lra)) as [ep Hep].
  exists ep. split; [done|].
  destruct (onmessage_replies_at_most_once ep
              {| JS.type := None; JS.message := Some "get-data"%string;
                 JS.buffer := None; JS.requestId := Some 3 |}
              (proj1 (EarProcessor_new_Some _ _ Hep)))
    as (replies & Hreplies & _ & _ & Hnone).
  rewrite Hreplies. f_equal. apply Hnone. by right.
Defined.

(** X25.  A reply that arrives twice settles nothing the second time:
    after one [data] message with a request id has been handled, handling
    the same message again only logs a warning and leaves the requester as
    it is. *)
Theorem duplicate_reply_only_warns
    (r : EarDataRequester.t) (data : JS.message_data) (id : nat) :
  JS.message data = Some "data"%string ->
  JS.requestId data = Some id ->
  let r1 := (_handleWorkerMessage r data).1 in
  _handleWorkerMessage r1 data = (r1, [ConsoleWarn id]).
Proof.
  intros Hmsg Hid r1.
  assert (pendingRequests r1 !! id = None) as Hnone.
  { unfold r1, _handleWorkerMessage. rewrite Hmsg, Hid. simpl.
    destruct (pendingRequests r !! id) as [s|] eqn:Hs; simpl; [|done].
    apply lookup_delete_eq. }
  unfold _handleWorkerMessage at 1. by rewrite Hmsg, Hid, Hnone.
Qed.

Lemma duplicate_reply_only_warns_witness :
  let data := {| JS.type := None; JS.message := Some "data"%string;
                 JS.buffer := Some (JS.ArrayBuffer [JS.Num 1]);
                 JS.requestId := Some 0 |} in
  let r1 := (_handleWorkerMessage (getEarPowerData new true).1 data).1 in
  _handleWorkerMessage r1 data = (r1, [ConsoleWarn 0]).
Proof.
  intros data.
  apply (duplicate_reply_only_warns (getEarPowerData new true).1 data 0);
    reflexivity.
Defined.

(** X26.  After [destroy] the requester no longer hears the port: every
    message is dropped without effect.  A request made after [destroy] is
    still registered and posted, and since its reply is dropped too, no
    message can settle it. *)
Theorem destroyed_requester_is_deaf (r : EarDataRequester.t) :
  let r1 := (destroy r).1 in
  (forall data, step r1 (Deliver data) = (r1, [])) /\
  let r2 := (step r1 (Request true)).1 in
  (exists request,
     (step r1 (Request true)).2 = [PostMessage request] /\
     JS.requestId request = Some (requestIdCounter r)) /\
  pendingRequests r2 !! requestIdCounter r
  = Some {| promise := requestIdCounter r |} /\
  (forall data, step r2 (Deliver data) = (r2, [])).
Proof.
  simpl. split; [done|]. split; [by eexists|]. split; [|done].
  apply lookup_insert_eq.
Qed.

End SnapshotEdges.
